(** * api/utils.js: response and error envelopes, session storage,
      query strings, retry with backoff and upload helpers

    A shallow embedding of [src/final/src/api/utils.js].  JavaScript values
    are an inductive type, a function that can throw returns a [Result],
    [localStorage] is a finite map that is passed explicitly, and an
    asynchronous operation is a transformer of a world state whose result
    is the settled promise (resolved or rejected). *)

From Stdlib Require Import ZArith List String Ascii Bool Lia DecimalString Sorted Permutation.
From stdpp Require Import base gmap strings.

Import ListNotations.
Set Warnings "-register-all".
Local Open Scope string_scope.
Local Open Scope Z_scope.

(** ** JavaScript values *)

(** The values the helpers can be handed: the primitives, arrays, plain
    objects and [Error] instances.  Numbers are the integers (a double is
    exact on them up to 2^53) and [NaN]; a string is a sequence of code
    units below 256, one per character.  A plain object is its own
    properties in creation order. *)
Inductive JsVal : Type :=
| JUndefined
| JNull
| JBool (b : bool)
| JNum (n : Z)
| JNaN
| JStr (s : string)
| JArr (elems : list JsVal)
| JObj (props : list (string * JsVal))
| JError (name message : string).

(** A completion: a normal value, or a thrown one. *)
Inductive Result (A : Type) : Type :=
| Return (a : A)
| Throw (error : JsVal).
Arguments Return {A} a.
Arguments Throw {A} error.

(** ToBoolean. *)
Definition truthy (v : JsVal) : bool :=
  match v with
  | JUndefined | JNull | JNaN => false
  | JBool b => b
  | JNum n => negb (Z.eqb n 0)
  | JStr s => negb (String.eqb s EmptyString)
  | JArr _ | JObj _ | JError _ _ => true
  end.

Definition nullish (v : JsVal) : bool :=
  match v with
  | JUndefined | JNull => true
  | _ => false
  end.

(** [a || b]. *)
Definition or_else (a b : JsVal) : JsVal := if truthy a then a else b.
Infix "||'" := or_else (at level 50, left associativity).

Definition Z_to_string (n : Z) : string := NilZero.string_of_int (Z.to_int n).

Fixpoint assoc (k : string) (props : list (string * JsVal)) : JsVal :=
  match props with
  | [] => JUndefined
  | (k', v) :: rest => if String.eqb k' k then v else assoc k rest
  end.

(** The element (or character) whose index is written [k], counting from [i]. *)
Fixpoint index_prop {A} (wrap : A -> JsVal) (elems : list A) (i : Z) (k : string) : JsVal :=
  match elems with
  | [] => JUndefined
  | e :: rest =>
      if String.eqb (Z_to_string i) k then wrap e else index_prop wrap rest (i + 1) k
  end.

Definition char_str (c : ascii) : JsVal := JStr (String c EmptyString).

(** [v.k] on a value that is neither null nor undefined.  Only own data
    properties are found: the keys this file reads ([data], [message],
    [response], [request], [status], [exp], [imageUrl], [videoUrl]) are
    not members of the built-in prototypes. *)
Definition prop (v : JsVal) (k : string) : JsVal :=
  match v with
  | JObj props => assoc k props
  | JArr elems =>
      if String.eqb k "length" then JNum (Z.of_nat (List.length elems))
      else index_prop (fun e => e) elems 0 k
  | JStr s =>
      if String.eqb k "length" then JNum (Z.of_nat (String.length s))
      else index_prop char_str (list_ascii_of_string s) 0 k
  | JError name message =>
      if String.eqb k "message" then JStr message
      else if String.eqb k "name" then JStr name
      else JUndefined
  | _ => JUndefined
  end.

(** ToString, as a template literal or [URLSearchParams.append] applies it.
    A number [JNum n] is an integer the code holds exactly; it is written
    with its digits, as JavaScript does below 10^21.  An error is written
    as [Error.prototype.toString] does: the name alone without a message,
    the message alone without a name. *)
Fixpoint ToString (v : JsVal) : string :=
  match v with
  | JUndefined => "undefined"
  | JNull => "null"
  | JBool true => "true"
  | JBool false => "false"
  | JNum n => Z_to_string n
  | JNaN => "NaN"
  | JStr s => s
  | JArr elems =>
      let elem_string e := if nullish e then EmptyString else ToString e in
      (fix join (l : list JsVal) : string :=
         match l with
         | [] => EmptyString
         | [e] => elem_string e
         | e :: rest => elem_string e +:+ "," +:+ join rest
         end) elems
  | JObj _ => "[object Object]"
  | JError name message =>
      if String.eqb name EmptyString then message
      else if String.eqb message EmptyString then name
      else name +:+ ": " +:+ message
  end.

(** The TypeError of reading property [k] of null or undefined (the text
    is V8's). *)
Definition TypeError_read (v : JsVal) (k : string) : JsVal :=
  JError "TypeError"
         ("Cannot read properties of " +:+ ToString v +:+ " (reading '" +:+ k +:+ "')").

(** [v.k]. *)
Definition GetV (v : JsVal) (k : string) : Result JsVal :=
  if nullish v then Throw (TypeError_read v k) else Return (prop v k).

(** [v?.k]. *)
Definition opt_chain (v : JsVal) (k : string) : JsVal :=
  if nullish v then JUndefined else prop v k.
Notation "v ?. k" := (opt_chain v k) (at level 25, left associativity).

(** ** The response and error envelopes

    The calls to [console.log] and [console.error], here and in the upload
    helpers, only write to the console and are left out. *)

Definition handleApiResponse (response : JsVal) : Result JsVal :=
  match GetV response "data" with
  | Throw e => Throw e
  | Return data =>
      if truthy data then
        Return (JObj [ ("success", JBool true);
                       ("data", data);
                       ("message", prop data "message" ||' JStr "Success") ])
      else
        Return (JObj [ ("success", JBool false);
                       ("data", JNull);
                       ("message", JStr "No data received") ])
  end.

Definition handleApiError (error : JsVal) : Result JsVal :=
  match GetV error "response" with
  | Throw e => Throw e
  | Return response =>
      if truthy response then
        Return (JObj [ ("success", JBool false);
                       ("data", JNull);
                       ("message", prop response "data" ?. "message"
                                   ||' JStr ("Error: " +:+ ToString (prop response "status")));
                       ("status", prop response "status") ])
      else if truthy (prop error "request") then
        Return (JObj [ ("success", JBool false);
                       ("data", JNull);
                       ("message", JStr "Network error - please check your connection");
                       ("status", JNull) ])
      else
        Return (JObj [ ("success", JBool false);
                       ("data", JNull);
                       ("message", prop error "message" ||' JStr "An unexpected error occurred");
                       ("status", JNull) ])
  end.

(** ** Asynchronous operations *)

(** What the host can observe of a run: an operation was invoked, a timer
    of [ms] milliseconds was awaited. *)
Inductive Event : Type :=
| Invoked
| Slept (ms : Z).

Section Async.
(** The world outside the program (the server, the network, the clock),
    and what the passing of [ms] milliseconds does to it. *)
Context {World : Type}.
Variable elapse : Z -> World -> World.

Record State : Type := mkState { world : World; trace : list Event }.

(** An operation settles with a value or with a rejection, and may change
    the world. *)
Definition Operation : Type := World -> Result JsVal * World.

(** The body of an [async] function. *)
Definition Async (A : Type) : Type := State -> Result A * State.

Definition ret {A} (a : A) : Async A := fun st => (Return a, st).
Definition throw {A} (error : JsVal) : Async A := fun st => (Throw error, st).
Definition bind {A B} (m : Async A) (k : A -> Async B) : Async B :=
  fun st =>
    match m st with
    | (Return a, st') => k a st'
    | (Throw error, st') => (Throw error, st')
    end.
Definition try_catch {A} (body : Async A) (handler : JsVal -> Async A) : Async A :=
  fun st =>
    match body st with
    | (Return a, st') => (Return a, st')
    | (Throw error, st') => handler error st'
    end.
Definition lift {A} (r : Result A) : Async A := fun st => (r, st).

(** [await op()]. *)
Definition await (op : Operation) : Async JsVal :=
  fun st =>
    let (r, w) := op (world st) in
    (r, mkState w (trace st ++ [Invoked])).

(** [await new Promise(resolve => setTimeout(resolve, ms))]. *)
Definition sleep (ms : Z) : Async unit :=
  fun st => (Return tt, mkState (elapse ms (world st)) (trace st ++ [Slept ms])).

#[local] Notation "'let*' x ':=' m 'in' k" := (bind m (fun x => k))
  (at level 62, x pattern, m at next level, right associativity).

Definition apiCall (apiFunction : list JsVal -> Operation) (args : list JsVal)
  : Async JsVal :=
  try_catch
    (let* response := await (apiFunction args) in
     lift (handleApiResponse response))
    (fun error => lift (handleApiError error)).

(** One turn of the loop of [retryRequest]: [Some result] when the turn
    returns from the function, [None] when it falls through to [i++]. *)
Definition retry_attempt (apiFunction : Operation) (maxRetries delay i : Z)
  : Async (option JsVal) :=
  try_catch
    (let* result := await apiFunction in
     ret (Some result))
    (fun error =>
       if i =? maxRetries - 1 then throw error
       else let* _ := sleep (delay * 2 ^ i) in
            ret None).

(** [for (; i < maxRetries; i++)], for at most [turns] turns. *)
Fixpoint retry_loop (apiFunction : Operation) (maxRetries delay : Z)
                    (turns : nat) (i : Z) : Async JsVal :=
  match turns with
  | O => ret JUndefined
  | S turns' =>
      if i <? maxRetries then
        let* r := retry_attempt apiFunction maxRetries delay i in
        match r with
        | Some result => ret result
        | None => retry_loop apiFunction maxRetries delay turns' (i + 1)
        end
      else ret JUndefined
  end.

(** [maxRetries] and [delay] default to 3 and 1000.  The loop starts at
    [i = 0] and has at most [maxRetries] turns to make. *)
Definition retryRequest (apiFunction : Operation) (maxRetries delay : Z) : Async JsVal :=
  retry_loop apiFunction maxRetries delay (Z.to_nat maxRetries) 0.

End Async.

Arguments State World : clear implicits.
Arguments Operation World : clear implicits.
Arguments Async World A : clear implicits.

Notation "'let*' x ':=' m 'in' k" := (bind m (fun x => k))
  (at level 62, x pattern, m at next level, right associativity).

(** ** Uploads *)

(** The endpoints of [./endpoints] that the upload helpers call, given
    the entries of the form data. *)
Class ImageAPI (World : Type) : Type := {
  uploadSingleImage : list (string * JsVal) -> Operation World;
  uploadSingleVideo : list (string * JsVal) -> Operation World
}.

Definition no_url_error : JsVal :=
  JError "Error" "Upload completed but no URL returned from server".

Module uploadUtils.
Section Upload.
Context {World : Type} {imageAPI : ImageAPI World}.

(** The [catch] block of both helpers: it logs [error.response?.data] and
    [error.response?.status], then rethrows. *)
Definition upload_catch (error : JsVal) : Async World JsVal :=
  let* response := lift (GetV error "response") in
  let _ := response ?. "data" in
  let* response := lift (GetV error "response") in
  let _ := response ?. "status" in
  throw error.

(** The progress callback only travels inside the request configuration;
    the transport calls it. *)
Definition uploadImage (file : JsVal) : Async World JsVal :=
  try_catch
    (let* _ := lift (GetV file "name") in
     let formData := [("image", file)] in
     let* response := await (uploadSingleImage formData) in
     let imageUrl := response ?. "data" ?. "data" ?. "imageUrl"
                     ||' response ?. "data" ?. "imageUrl"
                     ||' response ?. "imageUrl" in
     if truthy imageUrl then ret (JObj [("data", JObj [("imageUrl", imageUrl)])])
     else throw no_url_error)
    upload_catch.

Definition uploadVideo (file : JsVal) : Async World JsVal :=
  try_catch
    (let* _ := lift (GetV file "name") in
     let formData := [("video", file)] in
     let* response := await (uploadSingleVideo formData) in
     let videoUrl := response ?. "data" ?. "data" ?. "videoUrl"
                     ||' response ?. "data" ?. "videoUrl"
                     ||' response ?. "videoUrl" in
     if truthy videoUrl then ret (JObj [("data", JObj [("videoUrl", videoUrl)])])
     else throw no_url_error)
    upload_catch.
End Upload.
End uploadUtils.

(** The value of a hexadecimal digit. *)
Definition hex_value (c : ascii) : option N :=
  let n := N_of_ascii c in
  if ((48 <=? n) && (n <=? 57))%N then Some (n - 48)%N
  else if ((65 <=? n) && (n <=? 70))%N then Some (n - 55)%N
  else if ((97 <=? n) && (n <=? 102))%N then Some (n - 87)%N
  else None.

(** ** Query strings *)

(** An array index: the canonical decimal form of an integer in
    [0, 2^32 - 2]. *)
Definition array_index (k : string) : option Z :=
  match NilZero.uint_of_string k with
  | Some u =>
      let n := Z.of_uint u in
      if String.eqb (Z_to_string n) k && (n <? 2 ^ 32 - 1) then Some n else None
  | None => None
  end.

(** Insertion of an indexed key into a list sorted by ascending index. *)
Fixpoint insert_index (n : Z) (k : string) (sorted : list (Z * string)) : list (Z * string) :=
  match sorted with
  | [] => [(n, k)]
  | (m, k') :: rest =>
      if n <? m then (n, k) :: sorted else (m, k') :: insert_index n k rest
  end.

Fixpoint index_keys (keys : list string) : list (Z * string) :=
  match keys with
  | [] => []
  | k :: rest =>
      match array_index k with
      | Some n => insert_index n k (index_keys rest)
      | None => index_keys rest
      end
  end.

Definition is_index (k : string) : bool :=
  match array_index k with Some _ => true | None => false end.

(** OrdinaryOwnPropertyKeys on property names in creation order: the array
    indices in ascending numeric order, then the other names in creation
    order. *)
Definition own_keys (keys : list string) : list string :=
  map snd (index_keys keys) ++ List.filter (fun k => negb (is_index k)) keys.

Definition indices (n : nat) : list string :=
  map (fun i => Z_to_string (Z.of_nat i)) (seq 0 n).

(** [Object.keys(v)]. *)
Definition Object_keys (v : JsVal) : Result (list string) :=
  match v with
  | JUndefined | JNull =>
      Throw (JError "TypeError" "Cannot convert undefined or null to object")
  | JObj props => Return (own_keys (map fst props))
  | JArr elems => Return (indices (List.length elems))
  | JStr s => Return (indices (String.length s))
  | _ => Return []
  end.

(** The application/x-www-form-urlencoded serializer behind
    [URLSearchParams.prototype.toString]. *)
Definition utf8 (c : ascii) : list N :=
  let n := N_of_ascii c in
  if (n <? 128)%N then [n] else [192 + n / 64; 128 + n mod 64]%N.

Definition urlencoded_safe (b : N) : bool :=
  ((b =? 42) || (b =? 45) || (b =? 46) || (b =? 95)
   || ((48 <=? b) && (b <=? 57))
   || ((65 <=? b) && (b <=? 90))
   || ((97 <=? b) && (b <=? 122)))%N.

Definition hex_digit (d : N) : ascii :=
  if (d <? 10)%N then ascii_of_N (48 + d) else ascii_of_N (55 + d).

Definition encode_byte (b : N) : string :=
  if (b =? 32)%N then "+"
  else if urlencoded_safe b then String (ascii_of_N b) EmptyString
  else String "%" (String (hex_digit (b / 16)) (String (hex_digit (b mod 16)) EmptyString)).

Definition urlencode (s : string) : string :=
  String.concat EmptyString (map encode_byte (flat_map utf8 (list_ascii_of_string s))).

Definition URLSearchParams_toString (entries : list (string * string)) : string :=
  String.concat "&"
    (map (fun '(name, value) => urlencode name +:+ "=" +:+ urlencode value) entries).

(** [v !== null && v !== undefined && v !== '']. *)
Definition is_set (v : JsVal) : bool :=
  match v with
  | JNull | JUndefined => false
  | JStr s => negb (String.eqb s EmptyString)
  | _ => true
  end.

Definition buildQueryParams (params : JsVal) : Result string :=
  match Object_keys params with
  | Throw e => Throw e
  | Return keys =>
      let queryParams :=
        fold_left
          (fun queryParams key =>
             if is_set (prop params key)
             then (queryParams ++ [(key, ToString (prop params key))])%list
             else queryParams)
          keys [] in
      Return (URLSearchParams_toString queryParams)
  end.

(** ** Form data *)

Section FormData.
(** The files and blobs of the host; they are not among the values of
    [JsVal]. *)
Context {Blob : Type}.

(** The value of an entry: [FormData.append] keeps a blob and turns
    anything else into a string. *)
Inductive FormValue : Type :=
| FormText (s : string)
| FormBlob (b : Blob).

Definition FormData_append (name : string) (value : JsVal + Blob)
    (formData : list (string * FormValue)) : list (string * FormValue) :=
  formData ++ [(name, match value with
                      | inl v => FormText (ToString v)
                      | inr b => FormBlob b
                      end)].

Definition truthy_value (value : JsVal + Blob) : bool :=
  match value with
  | inl v => truthy v
  | inr _ => true
  end.

(** [fileField] and [fileData] default to null.  The values of [data] are
    values of [JsVal]. *)
Definition createFormData (data fileField : JsVal) (fileData : JsVal + Blob)
  : Result (list (string * FormValue)) :=
  match Object_keys data with
  | Throw e => Throw e
  | Return keys =>
      let formData :=
        fold_left
          (fun formData key =>
             if negb (nullish (prop data key))
             then FormData_append key (inl (prop data key)) formData
             else formData)
          keys [] in
      Return (if truthy fileField && truthy_value fileData
              then FormData_append (ToString fileField) fileData formData
              else formData)
  end.
End FormData.

Arguments FormValue Blob : clear implicits.

(** ** Session storage *)

(** [localStorage]: string keys to string values. *)
Abbreviation Storage := (gmap string string).

Definition getItem (key : string) (localStorage : Storage) : JsVal :=
  match localStorage !! key with
  | Some value => JStr value
  | None => JNull
  end.

Definition setItem (key : string) (value : JsVal) (localStorage : Storage) : Storage :=
  <[key := ToString value]> localStorage.

Definition removeItem (key : string) (localStorage : Storage) : Storage :=
  delete key localStorage.

(** The built-ins whose result this file only passes on.  [JSON_parse] and
    [atob] take the string their argument converts to and return or throw;
    [StringToNumber] is ToNumber on a string, [None] being NaN. *)
Class Host : Type := {
  JSON_parse : string -> Result JsVal;
  atob : string -> Result string;
  StringToNumber : string -> option Z
}.

(** ToNumber, [None] being NaN.  Arrays, plain objects and errors convert
    through their string. *)
Definition ToNumber `{Host} (v : JsVal) : option Z :=
  match v with
  | JUndefined | JNaN => None
  | JNull => Some 0
  | JBool b => Some (if b then 1 else 0)
  | JNum n => Some n
  | JStr s => StringToNumber s
  | JArr _ | JObj _ | JError _ _ => StringToNumber (ToString v)
  end.

(** [a * b] and [a < b] on numbers. *)
Definition num_mul (a b : option Z) : option Z :=
  match a, b with
  | Some x, Some y => Some (x * y)
  | _, _ => None
  end.

Definition num_lt (a b : option Z) : bool :=
  match a, b with
  | Some x, Some y => x <? y
  | _, _ => false
  end.

(** The pieces of [s] between occurrences of the character [sep]; [acc] is
    the piece being read, reversed. *)
Fixpoint split_at (sep : ascii) (acc : list ascii) (s : string) : list string :=
  match s with
  | EmptyString => [string_of_list_ascii (rev acc)]
  | String c rest =>
      if Ascii.eqb c sep then string_of_list_ascii (rev acc) :: split_at sep [] rest
      else split_at sep (c :: acc) rest
  end.

(** [token.split('.')]: a method of strings only. *)
Definition split_dot (token : JsVal) : Result (list JsVal) :=
  match token with
  | JStr s => Return (map JStr (split_at "." [] s))
  | _ => Throw (JError "TypeError" "token.split is not a function")
  end.

(** [JSON.stringify], which this file only passes on: the text, or [None]
    when it returns undefined (as it does for undefined). *)
Class Serializer : Type := {
  JSON_stringify : JsVal -> option string
}.

Definition stringified `{Serializer} (v : JsVal) : JsVal :=
  match JSON_stringify v with
  | Some text => JStr text
  | None => JUndefined
  end.

Module tokenUtils.
Definition getToken (localStorage : Storage) : JsVal := getItem "authToken" localStorage.
Definition setToken (token : JsVal) (localStorage : Storage) : Storage :=
  setItem "authToken" token localStorage.
Definition removeToken (localStorage : Storage) : Storage :=
  removeItem "authToken" localStorage.

(** [JSON.parse(atob(token.split('.')[1]))]. *)
Definition decode_payload `{Host} (token : JsVal) : Result JsVal :=
  match split_dot token with
  | Throw e => Throw e
  | Return parts =>
      match atob (ToString (nth 1 parts JUndefined)) with
      | Throw e => Throw e
      | Return decoded => JSON_parse decoded
      end
  end.

(** [now] is [Date.now()]. *)
Definition isTokenExpired `{Host} (now : Z) (token : JsVal) : bool :=
  if negb (truthy token) then true
  else
    match decode_payload token with
    | Throw _ => true
    | Return payload =>
        match GetV payload "exp" with
        | Throw _ => true
        | Return exp => num_lt (num_mul (ToNumber exp) (Some 1000)) (Some now)
        end
    end.
End tokenUtils.

Module userUtils.
Definition getUserData `{Host} (localStorage : Storage) : Result JsVal :=
  let userData := getItem "userData" localStorage in
  if truthy userData then JSON_parse (ToString userData) else Return JNull.

Definition setUserData `{Serializer} (userData : JsVal) (localStorage : Storage) : Storage :=
  setItem "userData" (stringified userData) localStorage.

Definition removeUserData (localStorage : Storage) : Storage :=
  removeItem "userData" localStorage.

Definition clearAllUserData (localStorage : Storage) : Storage :=
  let localStorage := tokenUtils.removeToken localStorage in
  let localStorage := removeUserData localStorage in
  let localStorage := removeItem "cartData" localStorage in
  removeItem "wishlistData" localStorage.
End userUtils.

(** ** Debounce *)

(** A timer the host holds for the closure: its id, the time it is due and
    the arguments its callback [later] has captured. *)
Record Timer : Type := mkTimer { timer_id : nat; timer_due : Z; timer_args : list JsVal }.

(** The closure [debounce] returns, with the part of the host it touches:
    the variable [timeout] ([None] is undefined), the pending timers it has
    set, the next timer id of the host, and the calls of [func] made so
    far, oldest first.  [func] is any function; its calls are recorded. *)
Record Debounced : Type := mkDebounced {
  wait : Z;
  timeout : option nat;
  timers : list Timer;
  next_timer : nat;
  calls : list (list JsVal)
}.

(** [debounce(func, wait)]. *)
Definition debounce (wait : Z) : Debounced := mkDebounced wait None [] 1 [].

(** [clearTimeout(id)]: nothing happens for undefined or for an id that is
    not pending. *)
Definition clearTimeout (id : option nat) (pending : list Timer) : list Timer :=
  match id with
  | None => pending
  | Some i => List.filter (fun t => negb (Nat.eqb (timer_id t) i)) pending
  end.

(** The delay of [setTimeout(handler, ms)] in a browser: the number is
    converted to a 32-bit integer, and a negative one counts as 0. *)
Definition ToInt32 (n : Z) : Z := (n + 2 ^ 31) mod 2 ^ 32 - 2 ^ 31.

Definition timer_delay (ms : Z) : Z := Z.max 0 (ToInt32 ms).

(** [executedFunction(...args)], called at the time [now]: the timer it
    sets is due [timer_delay wait] milliseconds later. *)
Definition executedFunction (now : Z) (args : list JsVal) (d : Debounced) : Debounced :=
  let pending := clearTimeout (timeout d) (timers d) in
  let id := next_timer d in
  {| wait := wait d;
     timeout := Some id;
     timers := pending ++ [mkTimer id (now + timer_delay (wait d)) args];
     next_timer := S id;
     calls := calls d |}.

(** The callback [later] of the timer [t]. *)
Definition later (t : Timer) (d : Debounced) : Debounced :=
  {| wait := wait d;
     timeout := timeout d;
     timers := clearTimeout (timeout d) (timers d);
     next_timer := next_timer d;
     calls := calls d ++ [timer_args t] |}.

(** The timer the host runs next at the time [now]: among those that are
    due, the one due first, and of these the one set first. *)
Fixpoint next_due (now : Z) (pending : list Timer) : option Timer :=
  match pending with
  | [] => None
  | t :: rest =>
      match next_due now rest with
      | Some t' =>
          if (timer_due t <=? now) && (timer_due t <=? timer_due t') then Some t else Some t'
      | None => if timer_due t <=? now then Some t else None
      end
  end.

(** The host runs the timers that are due, one after the other; a timer
    leaves the pending ones before its callback runs. *)
Fixpoint run_due (turns : nat) (now : Z) (d : Debounced) : Debounced :=
  match turns with
  | O => d
  | S turns' =>
      match next_due now (timers d) with
      | None => d
      | Some t =>
          let d' := {| wait := wait d;
                       timeout := timeout d;
                       timers := clearTimeout (Some (timer_id t)) (timers d);
                       next_timer := next_timer d;
                       calls := calls d |} in
          run_due turns' now (later t d')
      end
  end.

Definition run_timers (now : Z) (d : Debounced) : Debounced :=
  run_due (List.length (timers d)) now d.

(** What happens to the closure: it is called, or the event loop gets to
    run the timers. *)
Inductive HostEvent : Type :=
| Called (now : Z) (args : list JsVal)
| TimersRun (now : Z).

Definition host_step (d : Debounced) (e : HostEvent) : Debounced :=
  match e with
  | Called now args => executedFunction now args d
  | TimersRun now => run_timers now d
  end.

Definition host_run (events : list HostEvent) (d : Debounced) : Debounced :=
  fold_left host_step events d.

(** ** A host to run the helpers on

    One host, for evaluating the helpers on concrete inputs: [atob] is the
    forgiving base64 decoder, [JSON.parse] reads the JSON texts whose
    numbers are integer literals and whose escapes stay below U+0100, and
    ToNumber reads decimal integers.  The message of a thrown error is not
    modelled. *)
Module ReferenceHost.

Definition is_space (c : ascii) : bool :=
  let n := N_of_ascii c in
  ((n =? 9) || (n =? 10) || (n =? 12) || (n =? 13) || (n =? 32))%N.

Definition is_digit (c : ascii) : bool :=
  let n := N_of_ascii c in ((48 <=? n) && (n <=? 57))%N.

(** *** atob *)

Definition base64_value (c : ascii) : option N :=
  let n := N_of_ascii c in
  if ((65 <=? n) && (n <=? 90))%N then Some (n - 65)%N
  else if ((97 <=? n) && (n <=? 122))%N then Some (n - 71)%N
  else if is_digit c then Some (n + 4)%N
  else if (n =? 43)%N then Some 62%N
  else if (n =? 47)%N then Some 63%N
  else None.

Fixpoint base64_values (l : list ascii) : option (list N) :=
  match l with
  | [] => Some []
  | c :: rest =>
      match base64_value c, base64_values rest with
      | Some v, Some vs => Some (v :: vs)
      | _, _ => None
      end
  end.

Fixpoint base64_bytes (l : list N) : list ascii :=
  match l with
  | a :: b :: c :: d :: rest =>
      ascii_of_N (a * 4 + b / 16)
      :: ascii_of_N ((b mod 16) * 16 + c / 4)
      :: ascii_of_N ((c mod 4) * 64 + d)
      :: base64_bytes rest
  | [a; b; c] =>
      [ascii_of_N (a * 4 + b / 16); ascii_of_N ((b mod 16) * 16 + c / 4)]
  | [a; b] => [ascii_of_N (a * 4 + b / 16)]
  | _ => []
  end.

Definition strip_padding (l : list ascii) : list ascii :=
  if (Nat.modulo (List.length l) 4 =? 0)%nat then
    match rev l with
    | "="%char :: "="%char :: front => rev front
    | "="%char :: front => rev front
    | _ => l
    end
  else l.

Definition invalid_character : JsVal :=
  JError "InvalidCharacterError" "The string to be decoded is not correctly encoded.".

Definition base64_decode (s : string) : Result string :=
  let data := strip_padding (List.filter (fun c => negb (is_space c)) (list_ascii_of_string s)) in
  if (Nat.modulo (List.length data) 4 =? 1)%nat then Throw invalid_character
  else match base64_values data with
       | Some values => Return (string_of_list_ascii (base64_bytes values))
       | None => Throw invalid_character
       end.

(** *** JSON.parse *)

Definition is_json_space (c : ascii) : bool :=
  let n := N_of_ascii c in
  ((n =? 9) || (n =? 10) || (n =? 13) || (n =? 32))%N.

Fixpoint skip_space (s : list ascii) : list ascii :=
  match s with
  | c :: rest => if is_json_space c then skip_space rest else s
  | [] => []
  end.

Definition Parser (A : Type) : Type := list ascii -> option (A * list ascii).

Fixpoint expect (word : list ascii) (s : list ascii) : option (list ascii) :=
  match word, s with
  | [], _ => Some s
  | w :: word', c :: rest => if Ascii.eqb w c then expect word' rest else None
  | _ :: _, [] => None
  end.

Fixpoint digits (acc : Z) (s : list ascii) : Z * list ascii :=
  match s with
  | c :: rest =>
      if is_digit c then digits (acc * 10 + Z.of_N (N_of_ascii c - 48)) rest
      else (acc, s)
  | [] => (acc, [])
  end.

Definition starts_fraction (s : list ascii) : bool :=
  match s with
  | c :: _ => Ascii.eqb c "." || Ascii.eqb c "e" || Ascii.eqb c "E"
  | [] => false
  end.

(** An integer literal: no leading zero, no fraction, no exponent. *)
Definition natural : Parser Z := fun s =>
  match s with
  | c :: rest =>
      if Ascii.eqb c "0" then
        if starts_fraction rest then None else Some (0, rest)
      else if is_digit c then
        let (n, rest') := digits 0 s in
        if starts_fraction rest' then None else Some (n, rest')
      else None
  | [] => None
  end.

Definition number : Parser JsVal := fun s =>
  match s with
  | "-"%char :: rest =>
      match natural rest with
      | Some (n, rest') => Some (JNum (- n), rest')
      | None => None
      end
  | _ =>
      match natural s with
      | Some (n, rest') => Some (JNum n, rest')
      | None => None
      end
  end.

Definition quote : ascii := ascii_of_N 34.
Definition backslash : ascii := ascii_of_N 92.

(** The characters of a string literal after its opening quote. *)
Fixpoint chars (fuel : nat) (acc : list ascii) (s : list ascii) : option (string * list ascii) :=
  match fuel with
  | O => None
  | S fuel' =>
      match s with
      | [] => None
      | c :: rest =>
          if Ascii.eqb c quote then Some (string_of_list_ascii (rev acc), rest)
          else if Ascii.eqb c backslash then
            match rest with
            | [] => None
            | e :: rest =>
                let simple c := chars fuel' (c :: acc) rest in
                if Ascii.eqb e quote then simple quote
                else if Ascii.eqb e backslash then simple backslash
                else if Ascii.eqb e "/" then simple "/"%char
                else if Ascii.eqb e "b" then simple (ascii_of_N 8)
                else if Ascii.eqb e "f" then simple (ascii_of_N 12)
                else if Ascii.eqb e "n" then simple (ascii_of_N 10)
                else if Ascii.eqb e "r" then simple (ascii_of_N 13)
                else if Ascii.eqb e "t" then simple (ascii_of_N 9)
                else if Ascii.eqb e "u" then
                  match rest with
                  | "0"%char :: "0"%char :: h :: l :: rest' =>
                      match hex_value h, hex_value l with
                      | Some h, Some l => chars fuel' (ascii_of_N (h * 16 + l) :: acc) rest'
                      | _, _ => None
                      end
                  | _ => None
                  end
                else None
            end
          else if (N_of_ascii c <? 32)%N then None
          else chars fuel' (c :: acc) rest
      end
  end.

(** A later member replaces the value of an earlier one of the same name,
    in place. *)
Fixpoint set_member (k : string) (v : JsVal) (props : list (string * JsVal))
  : list (string * JsVal) :=
  match props with
  | [] => [(k, v)]
  | (k', v') :: rest =>
      if String.eqb k' k then (k, v) :: rest else (k', v') :: set_member k v rest
  end.

(** The elements of an array after the first, up to the closing bracket. *)
Fixpoint elements (fuel : nat) (value : Parser JsVal) (acc : list JsVal) (s : list ascii)
  : option (JsVal * list ascii) :=
  match fuel with
  | O => None
  | S fuel' =>
      match skip_space s with
      | "]"%char :: rest => Some (JArr (rev acc), rest)
      | ","%char :: rest =>
          match value rest with
          | Some (v, rest') => elements fuel' value (v :: acc) rest'
          | None => None
          end
      | _ => None
      end
  end.

Definition member (fuel : nat) (value : Parser JsVal) : Parser (string * JsVal) := fun s =>
  match skip_space s with
  | c :: rest =>
      if Ascii.eqb c quote then
        match chars fuel [] rest with
        | Some (k, after_key) =>
            match skip_space after_key with
            | ":"%char :: after_colon =>
                match value after_colon with
                | Some (v, rest') => Some ((k, v), rest')
                | None => None
                end
            | _ => None
            end
        | None => None
        end
      else None
  | [] => None
  end.

(** The members of an object after the first, up to the closing brace. *)
Fixpoint members (fuel : nat) (value : Parser JsVal) (acc : list (string * JsVal))
                 (s : list ascii) : option (JsVal * list ascii) :=
  match fuel with
  | O => None
  | S fuel' =>
      match skip_space s with
      | "}"%char :: rest => Some (JObj acc, rest)
      | ","%char :: rest =>
          match member fuel value rest with
          | Some ((k, v), rest') => members fuel' value (set_member k v acc) rest'
          | None => None
          end
      | _ => None
      end
  end.

Fixpoint value (fuel : nat) (s : list ascii) : option (JsVal * list ascii) :=
  match fuel with
  | O => None
  | S fuel' =>
      match skip_space s with
      | "n"%char :: rest => option_map (pair JNull) (expect ["u"; "l"; "l"]%char rest)
      | "t"%char :: rest => option_map (pair (JBool true)) (expect ["r"; "u"; "e"]%char rest)
      | "f"%char :: rest => option_map (pair (JBool false)) (expect ["a"; "l"; "s"; "e"]%char rest)
      | "["%char :: rest =>
          match skip_space rest with
          | "]"%char :: rest' => Some (JArr [], rest')
          | _ =>
              match value fuel' rest with
              | Some (v, rest') => elements (S (List.length rest')) (value fuel') [v] rest'
              | None => None
              end
          end
      | "{"%char :: rest =>
          match skip_space rest with
          | "}"%char :: rest' => Some (JObj [], rest')
          | _ =>
              match member (S (List.length rest)) (value fuel') rest with
              | Some (kv, rest') => members (S (List.length rest')) (value fuel') [kv] rest'
              | None => None
              end
          end
      | c :: rest =>
          if Ascii.eqb c quote then
            match chars (S (List.length rest)) [] rest with
            | Some (str, rest') => Some (JStr str, rest')
            | None => None
            end
          else number (c :: rest)
      | [] => None
      end
  end.

Definition syntax_error : JsVal := JError "SyntaxError" "Unexpected token in JSON".

Definition parse (text : string) : Result JsVal :=
  let s := list_ascii_of_string text in
  match value (S (List.length s)) s with
  | Some (v, rest) =>
      match skip_space rest with
      | [] => Return v
      | _ :: _ => Throw syntax_error
      end
  | None => Throw syntax_error
  end.

(** *** ToNumber on strings *)

Definition trim (s : list ascii) : list ascii :=
  let drop := fix drop (l : list ascii) : list ascii :=
    match l with
    | c :: rest => if is_space c then drop rest else l
    | [] => []
    end in
  rev (drop (rev (drop s))).

Definition unsigned_decimal (s : list ascii) : option Z :=
  match s with
  | [] => None
  | _ :: _ =>
      match digits 0 s with
      | (n, []) => Some n
      | (_, _ :: _) => None
      end
  end.

Definition decimal_number (text : string) : option Z :=
  match trim (list_ascii_of_string text) with
  | [] => Some 0
  | "-"%char :: rest => option_map Z.opp (unsigned_decimal rest)
  | "+"%char :: rest => unsigned_decimal rest
  | s => unsigned_decimal s
  end.

Definition host : Host :=
  {| JSON_parse := parse;
     atob := base64_decode;
     StringToNumber := decimal_number |}.
End ReferenceHost.

(** [JSON.stringify] on the values of the model, for evaluating
    [setUserData] on concrete inputs. *)
Module ReferenceSerializer.

Definition hex_lower (d : N) : ascii :=
  if (d <? 10)%N then ascii_of_N (48 + d) else ascii_of_N (87 + d).

Definition escape (c : ascii) : list ascii :=
  let n := N_of_ascii c in
  let backslash := ascii_of_N 92 in
  if (n =? 34)%N then [backslash; c]
  else if (n =? 92)%N then [backslash; c]
  else if (n =? 8)%N then [backslash; "b"%char]
  else if (n =? 12)%N then [backslash; "f"%char]
  else if (n =? 10)%N then [backslash; "n"%char]
  else if (n =? 13)%N then [backslash; "r"%char]
  else if (n =? 9)%N then [backslash; "t"%char]
  else if (n <? 32)%N then
    [backslash; "u"%char; "0"%char; "0"%char; hex_lower (n / 16); hex_lower (n mod 16)]
  else [c].

Definition quoted (s : string) : string :=
  let quote := ascii_of_N 34 in
  string_of_list_ascii (quote :: flat_map escape (list_ascii_of_string s) ++ [quote]).

(** The members in the order of [Object.keys]; a member whose value has no
    text (undefined) is left out. *)
Definition members (texts : list (string * option string)) : list string :=
  flat_map
    (fun key =>
       match List.find (fun member => String.eqb (fst member) key) texts with
       | Some (_, Some text) => [quoted key +:+ ":" +:+ text]
       | _ => []
       end)
    (own_keys (map fst texts)).

Fixpoint stringify (v : JsVal) : option string :=
  match v with
  | JUndefined => None
  | JNull | JNaN => Some "null"
  | JBool true => Some "true"
  | JBool false => Some "false"
  | JNum n => Some (Z_to_string n)
  | JStr s => Some (quoted s)
  | JArr elems =>
      let text e := match stringify e with Some t => t | None => "null" end in
      Some ("[" +:+ String.concat "," (map text elems) +:+ "]")
  | JObj props =>
      let texts := map (fun member => (fst member, stringify (snd member))) props in
      Some ("{" +:+ String.concat "," (members texts) +:+ "}")
  | JError _ _ => Some "{}"
  end.

Definition serializer : Serializer := {| JSON_stringify := stringify |}.
End ReferenceSerializer.

(** ** The vocabulary of the properties *)

(** [k in v], for a plain object. *)
Definition has_own (k : string) (v : JsVal) : bool :=
  match v with
  | JObj props => existsb (String.eqb k) (map fst props)
  | _ => false
  end.

Definition success_envelope (data message : JsVal) : JsVal :=
  JObj [("success", JBool true); ("data", data); ("message", message)].

Definition no_data_envelope : JsVal :=
  JObj [("success", JBool false); ("data", JNull); ("message", JStr "No data received")].

Definition error_envelope (message status : JsVal) : JsVal :=
  JObj [("success", JBool false); ("data", JNull); ("message", message); ("status", status)].

Definition network_error_message : string := "Network error - please check your connection".

(** The state after one invocation that leaves the world [w]. *)
Definition invoked {World : Type} (st : State World) (w : World) : State World :=
  mkState w (trace st ++ [Invoked]).

(** The events of [n] failed attempts that are each followed by a retry,
    the first of them being attempt [i]. *)
Fixpoint backoff (delay i : Z) (n : nat) : list Event :=
  match n with
  | O => []
  | S n' => Invoked :: Slept (delay * 2 ^ i) :: backoff delay (i + 1) n'
  end.

Definition invocations (events : list Event) : nat :=
  List.length (List.filter (fun e => match e with Invoked => true | Slept _ => false end) events).

Fixpoint sleeps (events : list Event) : list Z :=
  match events with
  | [] => []
  | Invoked :: rest => sleeps rest
  | Slept ms :: rest => ms :: sleeps rest
  end.

(** What both upload helpers promise, for the endpoint [endpoint], the
    form field [field] and the key [urlField] of the URL.  [nested],
    [inner] and [top] are the three places the URL is looked for. *)
Definition upload_contract {World : Type}
    (endpoint : list (string * JsVal) -> Operation World) (field urlField : string)
    (upload : JsVal -> Async World JsVal) : Prop :=
  forall (file : JsVal) (st : State World) (w : World),
    nullish file = false ->
    (forall response,
       endpoint [(field, file)] (world st) = (Return response, w) ->
       let nested := response ?. "data" ?. "data" ?. urlField in
       let inner := response ?. "data" ?. urlField in
       let top := response ?. urlField in
       let found url := (Return (JObj [("data", JObj [(urlField, url)])]), invoked st w) in
       (truthy nested = true -> upload file st = found nested)
       /\ (truthy nested = false -> truthy inner = true -> upload file st = found inner)
       /\ (truthy nested = false -> truthy inner = false -> truthy top = true ->
           upload file st = found top)
       /\ (truthy nested = false -> truthy inner = false -> truthy top = false ->
           upload file st = (Throw no_url_error, invoked st w)))
    /\ (forall error,
          endpoint [(field, file)] (world st) = (Throw error, w) ->
          nullish error = false ->
          upload file st = (Throw error, invoked st w)).

(** The entries appended for the keys [keys] of [params], in that order. *)
Definition query_entries (params : JsVal) (keys : list string) : list (string * string) :=
  map (fun key => (key, ToString (prop params key)))
      (List.filter (fun key => is_set (prop params key)) keys).

(** What the specification says of a record: the fields that are set, in
    the order the record was written. *)
Definition spec_query_entries (fields : list (string * JsVal)) : list (string * string) :=
  map (fun '(key, value) => (key, ToString value))
      (List.filter (fun '(_, value) => is_set value) fields).

(** *** Reading a query string back

    The application/x-www-form-urlencoded parser, on the strings of the
    model: [None] when a name or value is not the UTF-8 of code points
    below 256. *)

(** The bytes of an encoded name or value: [+] is a space, [%XY] the byte
    with hexadecimal digits [XY]. *)
Fixpoint percent_decode (s : list ascii) : list N :=
  match s with
  | [] => []
  | c :: rest =>
      let literal :=
        (if Ascii.eqb c "+" then 32%N else N_of_ascii c) :: percent_decode rest in
      if Ascii.eqb c "%" then
        match rest with
        | h :: l :: rest' =>
            match hex_value h, hex_value l with
            | Some a, Some b => (a * 16 + b)%N :: percent_decode rest'
            | _, _ => literal
            end
        | _ => literal
        end
      else literal
  end.

Fixpoint utf8_decode (bytes : list N) : option (list ascii) :=
  match bytes with
  | [] => Some []
  | b :: rest =>
      if (b <? 128)%N then option_map (cons (ascii_of_N b)) (utf8_decode rest)
      else
        match rest with
        | c :: rest' =>
            if (((b =? 194) || (b =? 195)) && (128 <=? c) && (c <? 192))%N
            then option_map (cons (ascii_of_N ((b - 192) * 64 + (c - 128))))
                            (utf8_decode rest')
            else None
        | [] => None
        end
  end.

Definition urldecode (s : string) : option string :=
  option_map string_of_list_ascii (utf8_decode (percent_decode (list_ascii_of_string s))).

(** The parts of [s] before and after the first [sep]. *)
Fixpoint split_first (sep : ascii) (s : string) : string * string :=
  match s with
  | EmptyString => (EmptyString, EmptyString)
  | String c rest =>
      if Ascii.eqb c sep then (EmptyString, rest)
      else let (before, after) := split_first sep rest in (String c before, after)
  end.

Definition parse_pair (piece : string) : option (string * string) :=
  let (name, value) := split_first "=" piece in
  match urldecode name, urldecode value with
  | Some name, Some value => Some (name, value)
  | _, _ => None
  end.

Fixpoint parse_pairs (pieces : list string) : option (list (string * string)) :=
  match pieces with
  | [] => Some []
  | piece :: rest =>
      if String.eqb piece EmptyString then parse_pairs rest
      else match parse_pair piece, parse_pairs rest with
           | Some entry, Some entries => Some (entry :: entries)
           | _, _ => None
           end
  end.

(** [Array.from(new URLSearchParams(query))]. *)
Definition parse_query (query : string) : option (list (string * string)) :=
  parse_pairs (split_at "&" [] query).

(** No character of [s] is [c]. *)
Definition lacks (c : ascii) (s : string) : bool :=
  forallb (fun x => negb (Ascii.eqb x c)) (list_ascii_of_string s).

(** *** Further vocabulary *)

(** [k] failed attempts in a row, the first being attempt [i] in the world
    [w]; [w'] is the world after the sleep that follows the last of them. *)
Inductive fails_then {World : Type} (elapse : Z -> World -> World)
    (apiFunction : Operation World) (delay : Z) : Z -> nat -> World -> World -> Prop :=
| fails_none (i : Z) (w : World) : fails_then elapse apiFunction delay i O w w
| fails_more (i : Z) (k : nat) (w w1 w' : World) (error : JsVal) :
    apiFunction w = (Throw error, w1) ->
    fails_then elapse apiFunction delay (i + 1) k (elapse (delay * 2 ^ i) w1) w' ->
    fails_then elapse apiFunction delay i (S k) w w'.

(** The milliseconds slept in all. *)
Definition total_sleep (events : list Event) : Z := fold_right Z.add 0 (sleeps events).

(** Calling an async function is an operation on the world: its own
    events stay inside. *)
Definition as_operation {World : Type} (call : Async World JsVal) : Operation World :=
  fun w => let (r, st) := call (mkState w []) in (r, world st).

(** [apiCall(uploadUtils.uploadImage, file)]. *)
Definition apiCall_uploadImage {World : Type} {imageAPI : ImageAPI World}
    (file : JsVal) : Async World JsVal :=
  apiCall (fun args => as_operation (uploadUtils.uploadImage (nth 0 args JUndefined))) [file].

(** The characters a query string is written with. *)
Definition query_char (c : ascii) : bool :=
  let n := N_of_ascii c in
  (urlencoded_safe n || (n =? 43) || (n =? 37) || (n =? 61) || (n =? 38))%N.

(** [v === '']. *)
Definition is_empty_string (v : JsVal) : bool :=
  match v with
  | JStr s => String.eqb s EmptyString
  | _ => false
  end.

(** A burst: calls of the closure with the timers never run at or after
    the time the pending timer is due, as when each call comes less than
    the delay after the one before.  [t] and [args] belong to the last
    call; a timer is due [delay] milliseconds after it was set. *)
Inductive Burst (delay : Z) : Z -> list JsVal -> list HostEvent -> Prop :=
| burst_first (t : Z) (args : list JsVal) : Burst delay t args [Called t args]
| burst_idle (t : Z) (args : list JsVal) (events : list HostEvent) (now : Z) :
    Burst delay t args events -> now < t + delay ->
    Burst delay t args (events ++ [TimersRun now])
| burst_again (t : Z) (args : list JsVal) (events : list HostEvent)
              (t' : Z) (args' : list JsVal) :
    Burst delay t args events ->
    Burst delay t' args' (events ++ [Called t' args']).

(** What holds of the closure at all times: the variable [timeout] names
    the one timer that may be pending, and the host has not reused its
    id. *)
Definition debounced_ok (d : Debounced) : Prop :=
  (timers d = [] \/ exists t, timers d = [t] /\ timeout d = Some (timer_id t))
  /\ Forall (fun t => (timer_id t < next_timer d)%nat) (timers d).

Definition called_args (events : list HostEvent) : list (list JsVal) :=
  flat_map (fun e => match e with Called _ args => [args] | TimersRun _ => [] end) events.

(** ** Sample operations

    Worlds and transports to run the asynchronous helpers on. *)

(** An operation that settles the same way in every world. *)
Definition settles {World : Type} (outcome : Result JsVal) : list JsVal -> Operation World :=
  fun _ w => (outcome, w).

(** A server that is down for the first two requests, and one that never
    comes back; the world is the number of requests served so far. *)
Definition flaky_server : Operation nat :=
  fun served =>
    if (served <? 2)%nat then (Throw (JError "Error" "timeout"), S served)
    else (Return (JObj [("data", JStr "ok")]), S served).

Definition dead_server : Operation nat :=
  fun served => (Throw (JError "Error" ("timeout " +:+ Z_to_string (Z.of_nat served))), S served).

Definition no_clock : Z -> nat -> nat := fun _ served => served.

(** A transport that settles as the uploaded file says: it rejects with
    the file's [fail] when there is one, and resolves with its [reply]
    otherwise. *)
Definition scripted_endpoint : list (string * JsVal) -> Operation unit :=
  fun formData w =>
    match formData with
    | [(_, file)] =>
        if truthy (prop file "fail") then (Throw (prop file "fail"), w)
        else (Return (prop file "reply"), w)
    | _ => (Throw (JError "Error" "bad request"), w)
    end.

Definition scripted_api : ImageAPI unit :=
  {| uploadSingleImage := scripted_endpoint; uploadSingleVideo := scripted_endpoint |}.

Definition file_with (k : string) (v : JsVal) : JsVal :=
  JObj [("name", JStr "holiday"); (k, v)].

Definition replied (response : JsVal) : JsVal := file_with "reply" response.
Definition failed (error : JsVal) : JsVal := file_with "fail" error.

(** A transport that rejects every upload with the reason [reason], as a
    request interceptor ending in [Promise.reject(reason)] makes it. *)
Definition rejecting_api (reason : JsVal) : ImageAPI unit :=
  {| uploadSingleImage := fun _ w => (Throw reason, w);
     uploadSingleVideo := fun _ w => (Throw reason, w) |}.

(** * Properties *)

(** ** Values *)

Lemma GetV_defined (v : JsVal) (k : string) :
  nullish v = false -> GetV v k = Return (prop v k).
Proof. unfold GetV. now intros ->. Qed.

Lemma GetV_nullish (v : JsVal) (k : string) :
  nullish v = true -> GetV v k = Throw (TypeError_read v k).
Proof. unfold GetV. now intros ->. Qed.

Lemma truthy_not_nullish (v : JsVal) : truthy v = true -> nullish v = false.
Proof. now destruct v. Qed.

Lemma or_else_truthy (a b : JsVal) : truthy a = true -> a ||' b = a.
Proof. unfold or_else. now intros ->. Qed.

Lemma or_else_falsy (a b : JsVal) : truthy a = false -> a ||' b = b.
Proof. unfold or_else. now intros ->. Qed.

(** ** Splitting strings *)

Lemma string_app_empty (s : string) : s +:+ EmptyString = s.
Proof.
  induction s as [| c s IH]; [reflexivity |].
  change (String c (s +:+ EmptyString) = String c s). now rewrite IH.
Qed.

Lemma split_at_piece (sep : ascii) (piece rest : string) (acc : list ascii) :
  lacks sep piece = true ->
  split_at sep acc (piece +:+ rest)
  = split_at sep (rev (list_ascii_of_string piece) ++ acc) rest.
Proof.
  revert acc. induction piece as [| c piece IH]; intros acc Hpiece; [reflexivity |].
  unfold lacks in Hpiece. cbn [list_ascii_of_string forallb] in Hpiece.
  apply andb_prop in Hpiece as [Hc Hpiece]. apply negb_true_iff in Hc.
  simpl. rewrite Hc, (IH _ Hpiece). now rewrite <- app_assoc.
Qed.

Lemma split_at_whole (sep : ascii) (piece : string) :
  lacks sep piece = true -> split_at sep [] piece = [piece].
Proof.
  intros Hpiece. rewrite <- (string_app_empty piece) at 1.
  rewrite (split_at_piece _ _ _ _ Hpiece). cbn [split_at].
  now rewrite app_nil_r, rev_involutive, string_of_list_ascii_of_string.
Qed.

Lemma split_at_first (sep : ascii) (piece rest : string) :
  lacks sep piece = true ->
  split_at sep [] (piece +:+ String sep rest) = piece :: split_at sep [] rest.
Proof.
  intros Hpiece. rewrite (split_at_piece _ _ _ _ Hpiece). cbn [split_at].
  rewrite Ascii.eqb_refl.
  now rewrite app_nil_r, rev_involutive, string_of_list_ascii_of_string.
Qed.

(** ** handleApiResponse *)

(** A response that is null or undefined has no [data] to read. *)
Lemma handleApiResponse_nullish (response : JsVal) :
  nullish response = true ->
  handleApiResponse response = Throw (TypeError_read response "data").
Proof. intros Hn. unfold handleApiResponse. now rewrite (GetV_nullish _ _ Hn). Qed.

(** C1, as stated, fails: the response [{data: 0}] has a [data] field, and
    the envelope is the no-data one, not a success. *)
Lemma handleApiResponse_data_zero :
  has_own "data" (JObj [("data", JNum 0)]) = true
  /\ handleApiResponse (JObj [("data", JNum 0)]) = Return no_data_envelope
  /\ handleApiResponse (JObj [("data", JNum 0)])
     <> Return (success_envelope (JNum 0) (JStr "Success")).
Proof. repeat split. intros H. discriminate H. Qed.

(** C1, amended: for a response whose [data] is truthy the envelope is a
    success that carries [data] unchanged, with [data.message] as message
    when that is truthy and "Success" otherwise; for a response whose
    [data] is absent or falsy (undefined, null, false, 0, NaN or the empty
    string) it is the no-data envelope. *)
Theorem handleApiResponse_envelope (response : JsVal) :
  nullish response = false ->
  let data := prop response "data" in
  (truthy data = true ->
     (truthy (prop data "message") = true ->
        handleApiResponse response = Return (success_envelope data (prop data "message")))
     /\ (truthy (prop data "message") = false ->
        handleApiResponse response = Return (success_envelope data (JStr "Success"))))
  /\ (truthy data = false ->
        handleApiResponse response = Return no_data_envelope).
Proof.
  intros Hn data. unfold handleApiResponse. rewrite (GetV_defined _ _ Hn). fold data.
  split.
  - intros ->. split; intros Hm.
    + now rewrite (or_else_truthy _ _ Hm).
    + now rewrite (or_else_falsy _ _ Hm).
  - now intros ->.
Qed.

Lemma handleApiResponse_envelope_witness :
  handleApiResponse (JObj [("data", JObj [("message", JStr "Created"); ("id", JNum 7)])])
  = Return (success_envelope (JObj [("message", JStr "Created"); ("id", JNum 7)]) (JStr "Created"))
  /\ handleApiResponse (JObj [("data", JArr [JNum 1; JNum 2])])
     = Return (success_envelope (JArr [JNum 1; JNum 2]) (JStr "Success"))
  /\ handleApiResponse (JObj [("status", JNum 204)]) = Return no_data_envelope.
Proof.
  split; [| split].
  - apply (handleApiResponse_envelope
             (JObj [("data", JObj [("message", JStr "Created"); ("id", JNum 7)])]));
      reflexivity.
  - apply (handleApiResponse_envelope (JObj [("data", JArr [JNum 1; JNum 2])]));
      reflexivity.
  - apply (handleApiResponse_envelope (JObj [("status", JNum 204)])); reflexivity.
Defined.

(** Whenever there is a response to read, an envelope comes back. *)
Lemma handleApiResponse_returns (response : JsVal) :
  nullish response = false ->
  exists success data message,
    handleApiResponse response
    = Return (JObj [("success", JBool success); ("data", data); ("message", message)]).
Proof.
  intros Hn. unfold handleApiResponse. rewrite (GetV_defined _ _ Hn).
  destruct (truthy (prop response "data")); eauto.
Qed.

(** ** handleApiError *)

Lemma handleApiError_nullish (error : JsVal) :
  nullish error = true ->
  handleApiError error = Throw (TypeError_read error "response").
Proof. intros Hn. unfold handleApiError. now rewrite (GetV_nullish _ _ Hn). Qed.

(** C5, as stated, fails twice.  A body message that is present but empty
    is not the message of the envelope, which is "Error: 500"; and
    undefined, an error without [response] and without [request], gets no
    envelope at all: reading [undefined.response] throws. *)
Lemma handleApiError_empty_or_undefined :
  has_own "message" (JObj [("message", JStr EmptyString)]) = true
  /\ handleApiError
       (JObj [("response", JObj [("status", JNum 500);
                                 ("data", JObj [("message", JStr EmptyString)])])])
     = Return (error_envelope (JStr "Error: 500") (JNum 500))
  /\ handleApiError
       (JObj [("response", JObj [("status", JNum 500);
                                 ("data", JObj [("message", JStr EmptyString)])])])
     <> Return (error_envelope (JStr EmptyString) (JNum 500))
  /\ handleApiError JUndefined = Throw (TypeError_read JUndefined "response")
  /\ ~ (exists message, handleApiError JUndefined = Return (error_envelope message JNull)).
Proof.
  split; [reflexivity |]. split; [reflexivity |]. split; [intros H; discriminate H |].
  split; [reflexivity |]. intros [message H]. discriminate H.
Qed.

(** C5, amended: the three cases of [handleApiError], tried in order, for
    an error that is not null or undefined.  A message counts when it is
    truthy (for a string: not empty).
    - [error.response] is there (any object is truthy): the status is
      [response.status], the message is the body's [message] if present and
      "Error: <status>" otherwise, so that status 500 without a body
      message gives exactly "Error: 500";
    - no [response] but a [request]: status null and the fixed network
      error message;
    - neither: status null, and the error's own [message] if present, the
      generic fallback otherwise. *)
Theorem handleApiError_cases (error : JsVal) :
  nullish error = false ->
  let response := prop error "response" in
  let body_message := prop response "data" ?. "message" in
  (truthy response = true ->
     (truthy body_message = true ->
        handleApiError error
        = Return (error_envelope body_message (prop response "status")))
     /\ (truthy body_message = false ->
        handleApiError error
        = Return (error_envelope (JStr ("Error: " +:+ ToString (prop response "status")))
                                 (prop response "status"))))
  /\ (truthy response = false -> truthy (prop error "request") = true ->
        handleApiError error
        = Return (error_envelope (JStr network_error_message) JNull))
  /\ (truthy response = false -> truthy (prop error "request") = false ->
        (truthy (prop error "message") = true ->
           handleApiError error = Return (error_envelope (prop error "message") JNull))
        /\ (truthy (prop error "message") = false ->
           handleApiError error
           = Return (error_envelope (JStr "An unexpected error occurred") JNull)))
  /\ handleApiError (JObj [("response", JObj [("status", JNum 500)])])
     = Return (error_envelope (JStr "Error: 500") (JNum 500)).
Proof.
  intros Hn response body_message. subst response body_message.
  unfold handleApiError. rewrite (GetV_defined _ _ Hn).
  split; [| split; [| split]].
  - intros ->. split; intros Hm.
    + now rewrite (or_else_truthy _ _ Hm).
    + now rewrite (or_else_falsy _ _ Hm).
  - now intros -> ->.
  - intros -> ->. split; intros Hm.
    + now rewrite (or_else_truthy _ _ Hm).
    + now rewrite (or_else_falsy _ _ Hm).
  - reflexivity.
Qed.

Lemma handleApiError_cases_witness :
  handleApiError (JObj [("response", JObj [("status", JNum 404);
                                            ("data", JObj [("message", JStr "x")])])])
  = Return (error_envelope (JStr "x") (JNum 404))
  /\ handleApiError (JObj [("response", JObj [("status", JNum 500)])])
     = Return (error_envelope (JStr "Error: 500") (JNum 500))
  /\ handleApiError (JObj [("request", JObj [])])
     = Return (error_envelope (JStr network_error_message) JNull)
  /\ handleApiError (JError "TypeError" "x is not a function")
     = Return (error_envelope (JStr "x is not a function") JNull)
  /\ handleApiError (JObj [])
     = Return (error_envelope (JStr "An unexpected error occurred") JNull).
Proof.
  split; [| split; [| split; [| split]]].
  - apply (handleApiError_cases
             (JObj [("response", JObj [("status", JNum 404);
                                       ("data", JObj [("message", JStr "x")])])]));
      reflexivity.
  - apply (handleApiError_cases (JObj [("response", JObj [("status", JNum 500)])]));
      reflexivity.
  - apply (handleApiError_cases (JObj [("request", JObj [])])); reflexivity.
  - apply (handleApiError_cases (JError "TypeError" "x is not a function")); reflexivity.
  - apply (handleApiError_cases (JObj [])); reflexivity.
Defined.

(** An error that is not null or undefined always gets a failure envelope. *)
Lemma handleApiError_returns (error : JsVal) :
  nullish error = false ->
  exists message status, handleApiError error = Return (error_envelope message status).
Proof.
  intros Hn. unfold handleApiError. rewrite (GetV_defined _ _ Hn).
  destruct (truthy (prop error "response")); [eauto |].
  destruct (truthy (prop error "request")); eauto.
Qed.

(** ** apiCall *)

Section ApiCall.
Context {World : Type}.
Implicit Types (apiFunction : list JsVal -> Operation World) (st : State World).

Lemma apiCall_resolved apiFunction args st response w :
  apiFunction args (world st) = (Return response, w) ->
  apiCall apiFunction args st
  = (match handleApiResponse response with
     | Return envelope => Return envelope
     | Throw error => handleApiError error
     end, invoked st w).
Proof.
  intros Hop. unfold apiCall, try_catch, bind, await, lift. rewrite Hop.
  now destruct (handleApiResponse response).
Qed.

Lemma apiCall_rejected apiFunction args st error w :
  apiFunction args (world st) = (Throw error, w) ->
  apiCall apiFunction args st = (handleApiError error, invoked st w).
Proof.
  intros Hop. unfold apiCall, try_catch, bind, await, lift. now rewrite Hop.
Qed.

(** C4, amended: [apiCall] invokes the operation once.  When it resolves
    with a value that is not null or undefined, the result is
    [handleApiResponse] of that value; when it resolves with null or
    undefined, reading [data] raises a TypeError and the result is the
    failure envelope [handleApiError] makes of that TypeError, with its
    message and status null; when it rejects with a value that is not
    null or undefined, the result is [handleApiError] of that value.  In
    each of these cases [apiCall] returns and does not reject. *)
Theorem apiCall_envelope apiFunction args st w :
  (forall response,
     apiFunction args (world st) = (Return response, w) -> nullish response = false ->
     apiCall apiFunction args st = (handleApiResponse response, invoked st w)
     /\ exists success data message,
          handleApiResponse response
          = Return (JObj [("success", JBool success); ("data", data); ("message", message)]))
  /\ (forall response,
     apiFunction args (world st) = (Return response, w) -> nullish response = true ->
     apiCall apiFunction args st
     = (handleApiError (TypeError_read response "data"), invoked st w)
     /\ handleApiError (TypeError_read response "data")
        = Return (error_envelope (prop (TypeError_read response "data") "message") JNull))
  /\ (forall error,
     apiFunction args (world st) = (Throw error, w) -> nullish error = false ->
     apiCall apiFunction args st = (handleApiError error, invoked st w)
     /\ exists message status,
          handleApiError error = Return (error_envelope message status)).
Proof.
  split; [| split].
  - intros response Hop Hn.
    destruct (handleApiResponse_returns response Hn) as (b & d & m & Henv).
    rewrite (apiCall_resolved _ _ _ _ _ Hop), Henv. eauto.
  - intros response Hop Hn.
    rewrite (apiCall_resolved _ _ _ _ _ Hop), (handleApiResponse_nullish _ Hn).
    split; [reflexivity |]. now destruct response.
  - intros error Hop Hn.
    destruct (handleApiError_returns error Hn) as (m & s & Henv).
    rewrite (apiCall_rejected _ _ _ _ _ Hop), Henv. eauto.
Qed.
End ApiCall.

(** C4, as stated, fails twice.  An operation that resolves with undefined
    does not give what [handleApiResponse] gives on undefined (a TypeError)
    but a failure envelope; an operation that rejects with undefined makes
    [apiCall] itself reject, with the TypeError of reading
    [undefined.response]. *)
Lemma apiCall_undefined :
  fst (apiCall (settles (Return JUndefined)) [] (mkState tt []))
  = Return (error_envelope
              (JStr "Cannot read properties of undefined (reading 'data')") JNull)
  /\ handleApiResponse JUndefined = Throw (TypeError_read JUndefined "data")
  /\ fst (apiCall (settles (Throw JUndefined)) [] (mkState tt []))
     = Throw (TypeError_read JUndefined "response").
Proof. split; [| split]; reflexivity. Qed.

Lemma apiCall_envelope_witness :
  apiCall (settles (Return (JObj [("data", JStr "ok")]))) [JNum 1] (mkState tt [])
  = (Return (success_envelope (JStr "ok") (JStr "Success")), mkState tt [Invoked])
  /\ apiCall (settles (Return JNull)) [] (mkState tt [])
     = (Return (error_envelope
                  (JStr "Cannot read properties of null (reading 'data')") JNull),
        mkState tt [Invoked])
  /\ apiCall (settles (Throw (JObj [("request", JObj [])]))) [] (mkState tt [])
     = (Return (error_envelope (JStr network_error_message) JNull), mkState tt [Invoked]).
Proof.
  split; [| split].
  - exact (proj1 (proj1 (apiCall_envelope
                           (settles (Return (JObj [("data", JStr "ok")]))) [JNum 1]
                           (mkState tt []) tt)
                        _ eq_refl eq_refl)).
  - exact (proj1 (proj1 (proj2 (apiCall_envelope (settles (Return JNull)) []
                                                 (mkState tt []) tt))
                        _ eq_refl eq_refl)).
  - exact (proj1 (proj2 (proj2 (apiCall_envelope
                                  (settles (Throw (JObj [("request", JObj [])]))) []
                                  (mkState tt []) tt))
                        _ eq_refl eq_refl)).
Defined.

(** ** retryRequest *)

Section RetryRequest.
Context {World : Type}.
Variable elapse : Z -> World -> World.
Variable apiFunction : Operation World.
Variables maxRetries delay : Z.
Implicit Types (st : State World) (i : Z) (remaining : nat).

#[local] Abbreviation loop := (retry_loop elapse apiFunction maxRetries delay).

Lemma retry_loop_done i st : loop O i st = (Return JUndefined, st).
Proof. reflexivity. Qed.

Lemma retry_loop_success remaining i st result w :
  i < maxRetries ->
  apiFunction (world st) = (Return result, w) ->
  loop (S remaining) i st = (Return result, mkState w (trace st ++ [Invoked])).
Proof.
  intros Hi Hop. cbn [retry_loop]. apply Z.ltb_lt in Hi. rewrite Hi.
  unfold bind, retry_attempt, try_catch, bind, await, ret.
  now rewrite Hop.
Qed.

Lemma retry_loop_last_failure remaining i st error w :
  apiFunction (world st) = (Throw error, w) ->
  i = maxRetries - 1 ->
  loop (S remaining) i st = (Throw error, mkState w (trace st ++ [Invoked])).
Proof.
  intros Hop Hi. cbn [retry_loop].
  replace (i <? maxRetries) with true by (symmetry; apply Z.ltb_lt; lia).
  unfold bind, retry_attempt, try_catch, bind, await, throw.
  rewrite Hop. apply Z.eqb_eq in Hi. now rewrite Hi.
Qed.

Lemma retry_loop_retry remaining i st error w :
  i < maxRetries ->
  apiFunction (world st) = (Throw error, w) ->
  i <> maxRetries - 1 ->
  loop (S remaining) i st
  = loop remaining (i + 1)
      (mkState (elapse (delay * 2 ^ i) w)
               (trace st ++ [Invoked; Slept (delay * 2 ^ i)])).
Proof.
  intros Hlt Hop Hi. cbn [retry_loop]. apply Z.ltb_lt in Hlt. rewrite Hlt.
  unfold bind at 1. unfold retry_attempt, try_catch, bind at 1, await.
  rewrite Hop. apply Z.eqb_neq in Hi. rewrite Hi.
  unfold bind, sleep, ret. cbn [world trace]. now rewrite <- app_assoc.
Qed.

(** [maxRetries - i] turns are all the loop can make from [i]: more turns
    change nothing. *)
Lemma retry_loop_turns turns i st :
  (Z.to_nat (maxRetries - i) <= turns)%nat ->
  loop turns i st = loop (Z.to_nat (maxRetries - i)) i st.
Proof.
  revert i st. induction turns as [| turns IH]; intros i st Hturns.
  - now replace (Z.to_nat (maxRetries - i)) with O by lia.
  - destruct (Z.ltb_spec i maxRetries) as [Hlt | Hge].
    + replace (Z.to_nat (maxRetries - i)) with (S (Z.to_nat (maxRetries - (i + 1)))) by lia.
      cbn [retry_loop]. apply Z.ltb_lt in Hlt as Hlt'. rewrite Hlt'. unfold bind.
      destruct (retry_attempt elapse apiFunction maxRetries delay i st)
        as [[[result |] | error] st']; try reflexivity.
      apply IH. lia.
    + replace (Z.to_nat (maxRetries - i)) with O by lia.
      cbn [retry_loop]. now replace (i <? maxRetries) with false by (symmetry; apply Z.ltb_ge; lia).
Qed.

(** An operation that fails in every world exhausts the attempts. *)
Lemma retry_loop_exhausted remaining :
  (forall w, exists error w', apiFunction w = (Throw error, w')) ->
  forall i st,
    i + Z.of_nat remaining = maxRetries - 1 ->
    exists error w_last w',
      apiFunction w_last = (Throw error, w')
      /\ loop (S remaining) i st
         = (Throw error, mkState w' (trace st ++ backoff delay i remaining ++ [Invoked])).
Proof.
  intros Hfail. induction remaining as [| n IH]; intros i st Hi.
  - destruct (Hfail (world st)) as (error & w & Hop).
    exists error, (world st), w. split; [exact Hop |].
    apply (retry_loop_last_failure _ _ _ _ _ Hop). lia.
  - destruct (Hfail (world st)) as (error & w & Hop).
    assert (Hlt : i < maxRetries) by lia.
    rewrite (retry_loop_retry _ _ _ _ _ Hlt Hop) by lia.
    destruct (IH (i + 1)
                 (mkState (elapse (delay * 2 ^ i) w)
                          (trace st ++ [Invoked; Slept (delay * 2 ^ i)])))
      as (error' & w_last & w' & Hlast & Hrun); [lia |].
    exists error', w_last, w'. split; [exact Hlast |].
    rewrite Hrun. cbn [trace backoff]. now rewrite <- app_assoc.
Qed.

Lemma invocations_app (a b : list Event) :
  invocations (a ++ b) = (invocations a + invocations b)%nat.
Proof. unfold invocations. now rewrite List.filter_app, List.length_app. Qed.

Lemma invocations_backoff i n : invocations (backoff delay i n) = n.
Proof.
  revert i. induction n as [| n IH]; intros i; [reflexivity |].
  cbn [backoff]. change (S (invocations (backoff delay (i + 1) n)) = S n).
  now rewrite IH.
Qed.

Lemma sleeps_app (a b : list Event) : sleeps (a ++ b) = (sleeps a ++ sleeps b)%list.
Proof.
  induction a as [| [| ms] a IH]; [reflexivity | exact IH |].
  cbn [sleeps app]. now rewrite IH.
Qed.

Lemma sleeps_backoff i n :
  sleeps (backoff delay i n)
  = map (fun k => delay * 2 ^ (i + Z.of_nat k)) (seq 0 n).
Proof.
  revert i. induction n as [| n IH]; intros i; [reflexivity |].
  cbn [backoff sleeps seq map]. rewrite IH, <- seq_shift, map_map.
  f_equal; [now rewrite Z.add_0_r |].
  apply map_ext. intros k. do 2 f_equal. lia.
Qed.

(** C2: an operation that fails on its first two attempts and succeeds on
    the third is invoked exactly three times, with sleeps of [delay] and
    [2 * delay] in between, and its result is returned; an operation that
    fails on every attempt is invoked exactly [maxRetries] times, with a
    sleep of [delay * 2 ^ i] after each failed attempt [i] but the last,
    and the failure of the last attempt is what is thrown. *)
Theorem retryRequest_backoff st :
  1 <= maxRetries ->
  (forall error0 w1 error1 w2 result w3,
     3 <= maxRetries ->
     apiFunction (world st) = (Throw error0, w1) ->
     apiFunction (elapse delay w1) = (Throw error1, w2) ->
     apiFunction (elapse (2 * delay) w2) = (Return result, w3) ->
     retryRequest elapse apiFunction maxRetries delay st
     = (Return result,
        mkState w3 (trace st ++ [Invoked; Slept delay; Invoked; Slept (2 * delay); Invoked])))
  /\ ((forall w, exists error w', apiFunction w = (Throw error, w')) ->
      exists error w_last w' events,
        apiFunction w_last = (Throw error, w')
        /\ retryRequest elapse apiFunction maxRetries delay st
           = (Throw error, mkState w' (trace st ++ events))
        /\ events = (backoff delay 0 (Z.to_nat (maxRetries - 1)) ++ [Invoked])%list
        /\ Z.of_nat (invocations events) = maxRetries
        /\ sleeps events
           = map (fun k => delay * 2 ^ Z.of_nat k) (seq 0 (Z.to_nat (maxRetries - 1)))).
Proof.
  intros Hmax. unfold retryRequest. split.
  - intros error0 w1 error1 w2 result w3 Hmax3 H0 H1 H2.
    replace (Z.to_nat maxRetries) with (S (S (S (Z.to_nat (maxRetries - 3))))) by lia.
    assert (Hlt : 0 < maxRetries) by lia.
    rewrite (retry_loop_retry _ _ _ _ _ Hlt H0) by lia.
    replace (delay * 2 ^ 0) with delay in * by lia.
    rewrite (retry_loop_retry (S (Z.to_nat (maxRetries - 3))) (0 + 1) _ error1 w2)
      by (cbn [world]; first [exact H1 | lia]).
    replace (delay * 2 ^ (0 + 1)) with (2 * delay) in * by lia.
    rewrite (retry_loop_success (Z.to_nat (maxRetries - 3)) (0 + 1 + 1) _ result w3)
      by first [exact H2 | lia].
    cbn [trace]. now rewrite <- !app_assoc.
  - intros Hfail.
    replace (Z.to_nat maxRetries) with (S (Z.to_nat (maxRetries - 1))) by lia.
    destruct (retry_loop_exhausted (Z.to_nat (maxRetries - 1)) Hfail 0 st)
      as (error & w_last & w' & Hlast & Hrun); [lia |].
    exists error, w_last, w', (backoff delay 0 (Z.to_nat (maxRetries - 1)) ++ [Invoked])%list.
    repeat split; try assumption.
    + rewrite invocations_app, invocations_backoff. cbn. lia.
    + rewrite sleeps_app, sleeps_backoff. cbn [sleeps]. now rewrite app_nil_r.
Qed.

(** C10: with [maxRetries <= 0] the loop body is never entered: the
    operation is not invoked, nothing is awaited, nothing is thrown, and
    the result is undefined. *)
Theorem retryRequest_no_attempt st :
  maxRetries <= 0 ->
  retryRequest elapse apiFunction maxRetries delay st = (Return JUndefined, st).
Proof.
  intros Hmax. unfold retryRequest.
  replace (Z.to_nat maxRetries) with O by lia. apply retry_loop_done.
Qed.
End RetryRequest.

Lemma retryRequest_backoff_witness :
  retryRequest no_clock flaky_server 3 1000 (mkState O [])
  = (Return (JObj [("data", JStr "ok")]),
     mkState 3%nat [Invoked; Slept 1000; Invoked; Slept 2000; Invoked])
  /\ exists error w_last w' events,
       dead_server w_last = (Throw error, w')
       /\ retryRequest no_clock dead_server 4 100 (mkState O []) = (Throw error, mkState w' events)
       /\ events = [Invoked; Slept 100; Invoked; Slept 200; Invoked; Slept 400; Invoked]
       /\ Z.of_nat (invocations events) = 4
       /\ sleeps events = [100; 200; 400].
Proof.
  split.
  - refine (proj1 (retryRequest_backoff no_clock flaky_server 3 1000 (mkState O []) _)
                  (JError "Error" "timeout") 1%nat (JError "Error" "timeout") 2%nat
                  (JObj [("data", JStr "ok")]) 3%nat _ eq_refl eq_refl eq_refl); lia.
  - refine (proj2 (retryRequest_backoff no_clock dead_server 4 100 (mkState O []) _) _);
      [lia |].
    intros w. eexists _, _. reflexivity.
Defined.

Lemma retryRequest_no_attempt_witness :
  retryRequest no_clock flaky_server 0 1000 (mkState O []) = (Return JUndefined, mkState O [])
  /\ retryRequest no_clock dead_server (-2) 1000 (mkState O []) = (Return JUndefined, mkState O []).
Proof.
  split.
  - apply (retryRequest_no_attempt no_clock flaky_server 0 1000 (mkState O [])). lia.
  - apply (retryRequest_no_attempt no_clock dead_server (-2) 1000 (mkState O [])). lia.
Defined.

(** ** Session storage *)

Section Session.
Context `{Host}.

(** The payload is read off the second dot-delimited segment. *)
Lemma decode_payload_segment (header payload rest : string) :
  lacks "." header = true -> lacks "." payload = true ->
  let decode segment :=
    match atob segment with
    | Throw e => Throw e
    | Return decoded => JSON_parse decoded
    end in
  tokenUtils.decode_payload (JStr (header +:+ String "." payload)) = decode payload
  /\ tokenUtils.decode_payload (JStr (header +:+ String "." (payload +:+ String "." rest)))
     = decode payload.
Proof.
  intros Hheader Hpayload decode. unfold tokenUtils.decode_payload, split_dot. split.
  - now rewrite (split_at_first _ _ _ Hheader), (split_at_whole _ _ Hpayload).
  - now rewrite (split_at_first _ _ _ Hheader), (split_at_first _ _ _ Hpayload).
Qed.

(** C6: [isTokenExpired] answers true for an absent token (null,
    undefined, the empty string); true whenever decoding the second
    dot-delimited segment as base64 JSON fails, be it in [split], in
    [atob], in [JSON.parse] or in reading [exp] off a null payload; true
    when the decoded [exp] times 1000 is below the current time, and
    false when it is above. *)
Theorem isTokenExpired_cases (now : Z) (token : JsVal) :
  (truthy token = false -> tokenUtils.isTokenExpired now token = true)
  /\ (forall error, tokenUtils.decode_payload token = Throw error ->
        tokenUtils.isTokenExpired now token = true)
  /\ (forall payload, tokenUtils.decode_payload token = Return payload ->
        nullish payload = true ->
        tokenUtils.isTokenExpired now token = true)
  /\ (forall payload exp,
        truthy token = true ->
        tokenUtils.decode_payload token = Return payload ->
        nullish payload = false ->
        ToNumber (prop payload "exp") = Some exp ->
        (exp * 1000 < now -> tokenUtils.isTokenExpired now token = true)
        /\ (now < exp * 1000 -> tokenUtils.isTokenExpired now token = false)).
Proof.
  unfold tokenUtils.isTokenExpired. split; [| split; [| split]].
  - now intros ->.
  - intros error ->. now destruct (negb (truthy token)).
  - intros payload -> Hn. rewrite (GetV_nullish _ _ Hn).
    now destruct (negb (truthy token)).
  - intros payload exp -> -> Hn Hexp. rewrite (GetV_defined _ _ Hn), Hexp.
    cbn [negb num_mul num_lt]. split; intros Hcmp.
    + apply Z.ltb_lt. exact Hcmp.
    + apply Z.ltb_ge. lia.
Qed.

Lemma isTokenExpired_absent (now : Z) :
  tokenUtils.isTokenExpired now JNull = true
  /\ tokenUtils.isTokenExpired now JUndefined = true
  /\ tokenUtils.isTokenExpired now (JStr EmptyString) = true.
Proof. repeat split. Qed.

(** What [getUserData] does: nothing stored, or the empty string, gives
    null; any other stored string goes to [JSON.parse], whose outcome,
    value or exception, is the outcome of [getUserData]. *)
Lemma getUserData_outcome (localStorage : Storage) :
  (localStorage !! "userData" = None ->
     userUtils.getUserData localStorage = Return JNull)
  /\ (forall stored, localStorage !! "userData" = Some stored -> stored <> EmptyString ->
        userUtils.getUserData localStorage = JSON_parse stored)
  /\ (localStorage !! "userData" = Some EmptyString ->
        userUtils.getUserData localStorage = Return JNull).
Proof.
  unfold userUtils.getUserData, getItem. split; [| split].
  - now intros ->.
  - intros stored -> Hne. cbn [truthy ToString].
    apply String.eqb_neq in Hne. now rewrite Hne.
  - now intros ->.
Qed.
End Session.

Lemma isTokenExpired_cases_witness :
  @tokenUtils.isTokenExpired ReferenceHost.host 1700000000000 (JStr EmptyString) = true
  /\ @tokenUtils.isTokenExpired ReferenceHost.host 1700000000000 (JStr "not-a-token") = true
  /\ @tokenUtils.isTokenExpired ReferenceHost.host 1700000000000 (JStr "h.bnVsbA.s") = true
  /\ @tokenUtils.isTokenExpired ReferenceHost.host 1700000000000
       (JStr "h.eyJleHAiOjE2MDAwMDAwMDB9.s") = true
  /\ @tokenUtils.isTokenExpired ReferenceHost.host 1500000000000
       (JStr "h.eyJleHAiOjE2MDAwMDAwMDB9.s") = false.
Proof.
  split; [| split; [| split; [| split]]].
  - apply (@isTokenExpired_cases ReferenceHost.host). reflexivity.
  - apply (proj1 (proj2 (@isTokenExpired_cases ReferenceHost.host 1700000000000
                           (JStr "not-a-token")))
             ReferenceHost.invalid_character).
    reflexivity.
  - apply (proj1 (proj2 (proj2 (@isTokenExpired_cases ReferenceHost.host 1700000000000
                                  (JStr "h.bnVsbA.s"))))
             JNull); reflexivity.
  - apply (proj2 (proj2 (proj2 (@isTokenExpired_cases ReferenceHost.host 1700000000000
                                  (JStr "h.eyJleHAiOjE2MDAwMDAwMDB9.s"))))
             (JObj [("exp", JNum 1600000000)]) 1600000000);
      try reflexivity.
  - apply (proj2 (proj2 (proj2 (@isTokenExpired_cases ReferenceHost.host 1500000000000
                                  (JStr "h.eyJleHAiOjE2MDAwMDAwMDB9.s"))))
             (JObj [("exp", JNum 1600000000)]) 1600000000);
      try reflexivity.
Defined.

(** C3 fails on the code: with the malformed text [{] stored under
    [userData], [getUserData] does not return null, it throws the
    SyntaxError of [JSON.parse]. *)
Theorem getUserData_malformed :
  @userUtils.getUserData ReferenceHost.host {[ "userData" := "{" ]}
  = Throw ReferenceHost.syntax_error.
Proof. reflexivity. Qed.

(** C9: after [clearAllUserData] none of the four keys is in storage,
    whatever was there before. *)
Theorem clearAllUserData_clears (localStorage : Storage) :
  userUtils.clearAllUserData localStorage !! "authToken" = None
  /\ userUtils.clearAllUserData localStorage !! "userData" = None
  /\ userUtils.clearAllUserData localStorage !! "cartData" = None
  /\ userUtils.clearAllUserData localStorage !! "wishlistData" = None.
Proof.
  unfold userUtils.clearAllUserData, userUtils.removeUserData, tokenUtils.removeToken,
    removeItem.
  repeat split.
  - rewrite !lookup_delete_ne by discriminate. apply lookup_delete_eq.
  - rewrite !lookup_delete_ne by discriminate. apply lookup_delete_eq.
  - rewrite !lookup_delete_ne by discriminate. apply lookup_delete_eq.
  - apply lookup_delete_eq.
Qed.

(** The sweep touches nothing else. *)
Lemma clearAllUserData_other (localStorage : Storage) (key : string) :
  key <> "authToken" -> key <> "userData" -> key <> "cartData" -> key <> "wishlistData" ->
  userUtils.clearAllUserData localStorage !! key = localStorage !! key.
Proof.
  intros H1 H2 H3 H4.
  unfold userUtils.clearAllUserData, userUtils.removeUserData, tokenUtils.removeToken,
    removeItem.
  now rewrite !lookup_delete_ne by congruence.
Qed.

(** ** Uploads *)

Section Uploads.
Context {World : Type} {imageAPI : ImageAPI World}.

Lemma upload_catch_rethrows (error : JsVal) (st : State World) :
  nullish error = false -> uploadUtils.upload_catch error st = (Throw error, st).
Proof.
  intros Hn. unfold uploadUtils.upload_catch, bind, lift, throw. now rewrite (GetV_defined _ _ Hn).
Qed.

Ltac upload_run Hfile Hop :=
  unfold try_catch, bind, lift, await, ret, throw, invoked;
  rewrite (GetV_defined _ _ Hfile), Hop.

Ltac decide_truthy :=
  repeat match goal with
         | H : truthy ?x = _ |- context [truthy ?x] => rewrite H; cbv iota
         end.

Ltac upload_cases Hfile :=
  intros response Hop; unfold or_else; upload_run Hfile Hop;
  (split; [| split; [| split]]); intros; decide_truthy; try reflexivity.

Lemma uploadImage_contract :
  upload_contract uploadSingleImage "image" "imageUrl" uploadUtils.uploadImage.
Proof.
  intros file st w Hfile. unfold uploadUtils.uploadImage. split.
  - upload_cases Hfile.
  - intros error Hop Hn. upload_run Hfile Hop. now rewrite upload_catch_rethrows.
Qed.

Lemma uploadVideo_contract :
  upload_contract uploadSingleVideo "video" "videoUrl" uploadUtils.uploadVideo.
Proof.
  intros file st w Hfile. unfold uploadUtils.uploadVideo. split.
  - upload_cases Hfile.
  - intros error Hop Hn. upload_run Hfile Hop. now rewrite upload_catch_rethrows.
Qed.

(** X22: [uploadImage] looks for the URL at [response.data.data.imageUrl],
    then [response.data.imageUrl], then [response.imageUrl], and returns
    [{ data: { imageUrl } }] with the first one that is truthy; when none
    is, it throws the "no URL returned" error instead of returning; a
    failure of the transport (an error value, not null or undefined) is
    rethrown as it is.  [uploadVideo] does the same with [videoUrl]. *)
Theorem upload_url_extraction :
  upload_contract uploadSingleImage "image" "imageUrl" uploadUtils.uploadImage
  /\ upload_contract uploadSingleVideo "video" "videoUrl" uploadUtils.uploadVideo.
Proof. split; [exact uploadImage_contract | exact uploadVideo_contract]. Qed.
End Uploads.

(** C7: a transport failure is not always rethrown unchanged.  When the
    transport rejects with undefined (or null), the [catch] block fails on
    [error.response] before it gets to [throw error]: the caller receives
    a TypeError, and the rejection of the transport is lost. *)
Lemma upload_rejection_lost :
  @uploadUtils.uploadImage unit (rejecting_api JUndefined)
     (JObj [("name", JStr "a.png")]) (mkState tt [])
  = (Throw (JError "TypeError" "Cannot read properties of undefined (reading 'response')"),
     mkState tt [Invoked])
  /\ fst (@uploadUtils.uploadImage unit (rejecting_api JUndefined)
            (JObj [("name", JStr "a.png")]) (mkState tt []))
     <> Throw JUndefined
  /\ @uploadUtils.uploadVideo unit (rejecting_api JNull)
       (JObj [("name", JStr "a.mp4")]) (mkState tt [])
     = (Throw (JError "TypeError" "Cannot read properties of null (reading 'response')"),
        mkState tt [Invoked])
  /\ fst (@uploadUtils.uploadVideo unit (rejecting_api JNull)
            (JObj [("name", JStr "a.mp4")]) (mkState tt []))
     <> Throw JNull.
Proof.
  split; [reflexivity |]. split; [intros H; discriminate H |].
  split; [reflexivity |]. intros H. discriminate H.
Qed.

Lemma upload_url_extraction_witness :
  @uploadUtils.uploadImage unit scripted_api
     (replied (JObj [("data", JObj [("data", JObj [("imageUrl", JStr "/i/1.png")])])]))
     (mkState tt [])
  = (Return (JObj [("data", JObj [("imageUrl", JStr "/i/1.png")])]), mkState tt [Invoked])
  /\ @uploadUtils.uploadImage unit scripted_api
       (replied (JObj [("data", JObj [("imageUrl", JStr "/i/2.png")])])) (mkState tt [])
     = (Return (JObj [("data", JObj [("imageUrl", JStr "/i/2.png")])]), mkState tt [Invoked])
  /\ @uploadUtils.uploadVideo unit scripted_api
       (replied (JObj [("videoUrl", JStr "/v/3.mp4")])) (mkState tt [])
     = (Return (JObj [("data", JObj [("videoUrl", JStr "/v/3.mp4")])]), mkState tt [Invoked])
  /\ @uploadUtils.uploadVideo unit scripted_api
       (replied (JObj [("data", JObj [("url", JStr "/v/4.mp4")])])) (mkState tt [])
     = (Throw no_url_error, mkState tt [Invoked])
  /\ @uploadUtils.uploadImage unit scripted_api
       (failed (JObj [("request", JObj [])])) (mkState tt [])
     = (Throw (JObj [("request", JObj [])]), mkState tt [Invoked]).
Proof.
  destruct (@upload_url_extraction unit scripted_api) as [Himage Hvideo].
  split; [| split; [| split; [| split]]].
  - apply (proj1 (Himage
                    (replied (JObj [("data", JObj [("data",
                                      JObj [("imageUrl", JStr "/i/1.png")])])]))
                    (mkState tt []) tt eq_refl) _ eq_refl).
    reflexivity.
  - apply (proj1 (Himage (replied (JObj [("data", JObj [("imageUrl", JStr "/i/2.png")])]))
                    (mkState tt []) tt eq_refl) _ eq_refl); reflexivity.
  - apply (proj1 (Hvideo (replied (JObj [("videoUrl", JStr "/v/3.mp4")]))
                    (mkState tt []) tt eq_refl) _ eq_refl); reflexivity.
  - apply (proj1 (Hvideo (replied (JObj [("data", JObj [("url", JStr "/v/4.mp4")])]))
                    (mkState tt []) tt eq_refl) _ eq_refl); reflexivity.
  - apply (proj2 (Himage (failed (JObj [("request", JObj [])]))
                    (mkState tt []) tt eq_refl) _ eq_refl).
    reflexivity.
Defined.

(** ** buildQueryParams *)

Lemma buildQueryParams_fold (params : JsVal) (keys : list string) (acc : list (string * string)) :
  fold_left
    (fun queryParams key =>
       if is_set (prop params key)
       then (queryParams ++ [(key, ToString (prop params key))])%list
       else queryParams)
    keys acc
  = (acc ++ query_entries params keys)%list.
Proof.
  revert acc. induction keys as [| key keys IH]; intros acc.
  - cbn. now rewrite app_nil_r.
  - cbn [fold_left]. rewrite IH. unfold query_entries. cbn [List.filter].
    destruct (is_set (prop params key)); [| reflexivity].
    cbn [map]. now rewrite <- app_assoc.
Qed.

Lemma buildQueryParams_keys (params : JsVal) (keys : list string) :
  Object_keys params = Return keys ->
  buildQueryParams params = Return (URLSearchParams_toString (query_entries params keys)).
Proof.
  intros Hkeys. unfold buildQueryParams. rewrite Hkeys.
  now rewrite buildQueryParams_fold.
Qed.

(** Without array indices among them, the keys come in creation order. *)
Lemma own_keys_no_index (keys : list string) :
  forallb (fun k => negb (is_index k)) keys = true -> own_keys keys = keys.
Proof.
  intros Hno. unfold own_keys.
  assert (Hidx : index_keys keys = []).
  { induction keys as [| k keys IH]; [reflexivity |].
    cbn [forallb] in Hno. apply andb_prop in Hno as [Hk Hrest].
    cbn [index_keys]. unfold is_index in Hk.
    destruct (array_index k); [discriminate | now apply IH]. }
  rewrite Hidx. cbn [map app].
  induction keys as [| k keys IH]; [reflexivity |].
  cbn [forallb] in Hno. apply andb_prop in Hno as [Hk Hrest].
  cbn [List.filter]. rewrite Hk. f_equal. apply IH; [exact Hrest |].
  cbn [index_keys] in Hidx. unfold is_index in Hk.
  destruct (array_index k); [discriminate | exact Hidx].
Qed.

Lemma assoc_skip (k k' : string) (v : JsVal) (fields : list (string * JsVal)) :
  k' <> k -> assoc k ((k', v) :: fields) = assoc k fields.
Proof. intros Hne. cbn [assoc]. apply String.eqb_neq in Hne. now rewrite Hne. Qed.

Lemma query_entries_record (fields rest : list (string * JsVal)) :
  List.NoDup (map fst rest) ->
  (forall k, List.In k (map fst rest) -> assoc k fields = assoc k rest) ->
  query_entries (JObj fields) (map fst rest) = spec_query_entries rest.
Proof.
  induction rest as [| [k v] rest IH]; intros Hnodup Hagree; [reflexivity |].
  cbn [map fst] in Hnodup. apply NoDup_cons_iff in Hnodup as [Hfresh Hnodup].
  assert (Hk : assoc k fields = v).
  { rewrite (Hagree k (or_introl eq_refl)). cbn [assoc]. now rewrite String.eqb_refl. }
  assert (IH' : query_entries (JObj fields) (map fst rest) = spec_query_entries rest).
  { apply IH; [exact Hnodup |]. intros k' Hin.
    rewrite (Hagree k' (or_intror Hin)). apply assoc_skip. now intros ->. }
  unfold query_entries, spec_query_entries in *.
  cbn [map fst List.filter prop] in *. rewrite Hk.
  destruct (is_set v); cbn [map]; now rewrite ?Hk, IH'.
Qed.

(** The indexed keys are listed by ascending index. *)
Lemma insert_index_sorted (n : Z) (k : string) (sorted : list (Z * string)) :
  Sorted (fun a b => fst a <= fst b) sorted ->
  Sorted (fun a b => fst a <= fst b) (insert_index n k sorted).
Proof.
  induction sorted as [| [m k'] sorted IH]; intros Hs.
  - repeat constructor.
  - cbn [insert_index]. destruct (Z.ltb_spec n m) as [Hlt | Hge].
    + constructor; [exact Hs |]. constructor. cbn. lia.
    + apply Sorted_inv in Hs as [Hs Hhd]. constructor; [now apply IH |].
      destruct sorted as [| [m' k''] sorted]; cbn [insert_index].
      * constructor. cbn. lia.
      * destruct (n <? m'); constructor; cbn; [lia |].
        apply HdRel_inv in Hhd. exact Hhd.
Qed.

Lemma index_keys_sorted (keys : list string) :
  Sorted (fun a b => fst a <= fst b) (index_keys keys).
Proof.
  induction keys as [| k keys IH]; [constructor |].
  cbn [index_keys]. destruct (array_index k); [| exact IH].
  now apply insert_index_sorted.
Qed.

Lemma insert_index_perm (n : Z) (k : string) (sorted : list (Z * string)) :
  Permutation (insert_index n k sorted) ((n, k) :: sorted).
Proof.
  induction sorted as [| [m k'] sorted IH]; [reflexivity |].
  cbn [insert_index]. destruct (n <? m); [reflexivity |].
  rewrite IH. apply perm_swap.
Qed.

(** [own_keys] only reorders. *)
Lemma own_keys_perm (keys : list string) : Permutation (own_keys keys) keys.
Proof.
  unfold own_keys. induction keys as [| k keys IH]; [reflexivity |].
  cbn [index_keys List.filter]. unfold is_index at 1.
  destruct (array_index k) as [n |]; cbn [negb].
  - rewrite insert_index_perm. cbn [map snd app]. now rewrite IH.
  - rewrite <- Permutation_middle. now rewrite IH.
Qed.

(** *** The query string read back *)

Lemma below_256 (P : N -> bool) :
  forallb P (map N.of_nat (seq 0 256)) = true ->
  forall b, (b < 256)%N -> P b = true.
Proof.
  intros Hall b Hb. rewrite forallb_forall in Hall. apply Hall.
  rewrite <- (N2Nat.id b). apply in_map, in_seq. lia.
Qed.

Lemma every_ascii (P : ascii -> bool) :
  forallb (fun n => P (ascii_of_N n)) (map N.of_nat (seq 0 256)) = true ->
  forall c, P c = true.
Proof.
  intros Hall c. rewrite <- (ascii_N_embedding c).
  apply (below_256 (fun n => P (ascii_of_N n)) Hall). apply N_ascii_bounded.
Qed.

Lemma list_ascii_of_string_app (a b : string) :
  list_ascii_of_string (a +:+ b) = (list_ascii_of_string a ++ list_ascii_of_string b)%list.
Proof. induction a as [| c a IH]; [reflexivity |]. simpl. f_equal. exact IH. Qed.

Lemma list_ascii_of_concat (pieces : list string) :
  list_ascii_of_string (String.concat EmptyString pieces)
  = flat_map list_ascii_of_string pieces.
Proof.
  induction pieces as [| p pieces IH]; [reflexivity |].
  cbn [flat_map]. rewrite <- IH. clear IH. destruct pieces as [| q pieces].
  - cbn. now rewrite app_nil_r.
  - change (String.concat EmptyString (p :: q :: pieces))
      with (p +:+ String.concat EmptyString (q :: pieces)).
    apply list_ascii_of_string_app.
Qed.

(** One encoded byte is one literal character or one escape, and reads
    back as the byte. *)
Lemma encode_byte_shape (b : N) :
  (b < 256)%N ->
  match list_ascii_of_string (encode_byte b) with
  | [c] =>
      negb (Ascii.eqb c "%")
      && N.eqb (if Ascii.eqb c "+" then 32%N else N_of_ascii c) b
  | [p; h; l] =>
      Ascii.eqb p "%"
      && match hex_value h, hex_value l with
         | Some x, Some y => N.eqb (x * 16 + y) b
         | _, _ => false
         end
  | _ => false
  end = true.
Proof. revert b. apply below_256. vm_compute. reflexivity. Qed.

Lemma percent_decode_byte (b : N) (tail : list ascii) :
  (b < 256)%N ->
  percent_decode (list_ascii_of_string (encode_byte b) ++ tail) = b :: percent_decode tail.
Proof.
  intros Hb. pose proof (encode_byte_shape b Hb) as Hshape.
  destruct (list_ascii_of_string (encode_byte b)) as [| c [| h [| l [| ? ?]]]];
    try discriminate Hshape.
  - apply andb_prop in Hshape as [Hc Hval]. apply N.eqb_eq in Hval.
    cbn [app percent_decode]. apply negb_true_iff in Hc. now rewrite Hc, Hval.
  - apply andb_prop in Hshape as [Hc Hval]. cbn [app percent_decode]. rewrite Hc.
    destruct (hex_value h) as [x |]; [| discriminate Hval].
    destruct (hex_value l) as [y |]; [| discriminate Hval].
    apply N.eqb_eq in Hval. now rewrite Hval.
Qed.

Lemma percent_decode_encode (bytes : list N) :
  Forall (fun b => (b < 256)%N) bytes ->
  percent_decode (list_ascii_of_string (String.concat EmptyString (map encode_byte bytes)))
  = bytes.
Proof.
  rewrite list_ascii_of_concat. induction 1 as [| b bytes Hb _ IH]; [reflexivity |].
  cbn [map flat_map]. now rewrite (percent_decode_byte _ _ Hb), IH.
Qed.

(** The UTF-8 of one character is one or two bytes, and reads back as the
    character. *)
Lemma utf8_shape (c : ascii) :
  match utf8 c with
  | [n] => (n <? 128)%N && Ascii.eqb (ascii_of_N n) c
  | [b; n] =>
      (negb (b <? 128) && ((b =? 194) || (b =? 195)) && (128 <=? n) && (n <? 192)
       && Ascii.eqb (ascii_of_N ((b - 192) * 64 + (n - 128))) c)%N
  | _ => false
  end = true.
Proof. revert c. apply every_ascii. vm_compute. reflexivity. Qed.

Lemma utf8_bounded (c : ascii) : Forall (fun b => (b < 256)%N) (utf8 c).
Proof.
  assert (Hall : forallb (fun b => (b <? 256)%N) (utf8 c) = true).
  { revert c. apply every_ascii. vm_compute. reflexivity. }
  rewrite forallb_forall in Hall. apply List.Forall_forall.
  intros b Hin. apply N.ltb_lt. now apply Hall.
Qed.

Lemma utf8_decode_char (c : ascii) (tail : list N) :
  utf8_decode (utf8 c ++ tail) = option_map (cons c) (utf8_decode tail).
Proof.
  pose proof (utf8_shape c) as Hshape.
  destruct (utf8 c) as [| b [| n [| ? ?]]]; try discriminate Hshape.
  - apply andb_prop in Hshape as [Hb Hc]. apply Ascii.eqb_eq in Hc.
    cbn [app utf8_decode]. now rewrite Hb, Hc.
  - repeat (apply andb_prop in Hshape as [Hshape ?]).
    apply negb_true_iff in Hshape.
    match goal with H : Ascii.eqb _ c = true |- _ => apply Ascii.eqb_eq in H; rename H into Hc end.
    cbn [app utf8_decode]. rewrite Hshape.
    match goal with H : (_ || _)%bool = true |- _ => rewrite H end.
    match goal with H : (128 <=? n)%N = true |- _ => rewrite H end.
    match goal with H : (n <? 192)%N = true |- _ => rewrite H end.
    cbn [andb]. now rewrite Hc.
Qed.

Lemma utf8_decode_encode (chars : list ascii) :
  utf8_decode (flat_map utf8 chars) = Some chars.
Proof.
  induction chars as [| c chars IH]; [reflexivity |].
  cbn [flat_map]. now rewrite utf8_decode_char, IH.
Qed.

Lemma urldecode_urlencode (s : string) : urldecode (urlencode s) = Some s.
Proof.
  unfold urldecode, urlencode. rewrite percent_decode_encode.
  - rewrite utf8_decode_encode. cbn [option_map].
    now rewrite string_of_list_ascii_of_string.
  - induction (list_ascii_of_string s) as [| c chars IH]; [constructor |].
    cbn [flat_map]. apply Forall_app. split; [apply utf8_bounded | exact IH].
Qed.

(** Neither [&] nor [=] is written by the encoder. *)
Lemma encode_byte_lacks (b : N) :
  (b < 256)%N ->
  (lacks "&" (encode_byte b) && lacks "=" (encode_byte b))%bool = true.
Proof. revert b. apply below_256. vm_compute. reflexivity. Qed.

Lemma lacks_app (c : ascii) (a b : string) :
  lacks c (a +:+ b) = (lacks c a && lacks c b)%bool.
Proof. unfold lacks. now rewrite list_ascii_of_string_app, forallb_app. Qed.

Lemma urlencode_lacks (s : string) :
  lacks "&" (urlencode s) = true /\ lacks "=" (urlencode s) = true.
Proof.
  unfold urlencode.
  assert (Hbytes : Forall (fun b => (b < 256)%N) (flat_map utf8 (list_ascii_of_string s))).
  { induction (list_ascii_of_string s) as [| c chars IH]; [constructor |].
    cbn [flat_map]. apply Forall_app. split; [apply utf8_bounded | exact IH]. }
  induction Hbytes as [| b bytes Hb _ [IH1 IH2]]; [split; reflexivity |].
  apply encode_byte_lacks, andb_prop in Hb as [Hb1 Hb2].
  cbn [map]. destruct bytes as [| b' bytes].
  - now split.
  - change (String.concat EmptyString (encode_byte b :: map encode_byte (b' :: bytes)))
      with (encode_byte b +:+ String.concat EmptyString (map encode_byte (b' :: bytes))).
    rewrite !lacks_app, Hb1, Hb2. now split.
Qed.

Lemma split_first_joined (name value : string) :
  lacks "=" name = true ->
  split_first "=" (name +:+ String "=" value) = (name, value).
Proof.
  induction name as [| c name IH]; intros Hname; [reflexivity |].
  unfold lacks in Hname. cbn [list_ascii_of_string forallb] in Hname.
  apply andb_prop in Hname as [Hc Hname]. apply negb_true_iff in Hc.
  simpl. rewrite Hc. now rewrite (IH Hname).
Qed.

Lemma split_at_joined (piece : string) (pieces : list string) :
  Forall (fun p => lacks "&" p = true) (piece :: pieces) ->
  split_at "&" [] (String.concat "&" (piece :: pieces)) = piece :: pieces.
Proof.
  revert piece. induction pieces as [| q pieces IH]; intros piece Hall.
  - apply Forall_inv in Hall. now apply split_at_whole.
  - pose proof (Forall_inv Hall) as Hpiece. apply Forall_inv_tail in Hall.
    change (String.concat "&" (piece :: q :: pieces))
      with (piece +:+ String "&" (String.concat "&" (q :: pieces))).
    now rewrite (split_at_first _ _ _ Hpiece), (IH q Hall).
Qed.

Lemma parse_pair_entry (name value : string) :
  parse_pair (urlencode name +:+ String "=" (urlencode value)) = Some (name, value).
Proof.
  unfold parse_pair. rewrite split_first_joined by apply urlencode_lacks.
  now rewrite !urldecode_urlencode.
Qed.

(** Parsing what [URLSearchParams] wrote gives back the entries. *)
Lemma parse_query_toString (entries : list (string * string)) :
  parse_query (URLSearchParams_toString entries) = Some entries.
Proof.
  unfold parse_query, URLSearchParams_toString.
  destruct entries as [| entry entries]; [reflexivity |].
  cbn [map]. rewrite split_at_joined.
  - change (parse_pairs (map (fun '(name, value) => urlencode name +:+ "=" +:+ urlencode value)
                             (entry :: entries)) = Some (entry :: entries)).
    induction (entry :: entries) as [| [name value] rest IH]; [reflexivity |].
    cbn [map parse_pairs].
    change (urlencode name +:+ "=" +:+ urlencode value)
      with (urlencode name +:+ String "=" (urlencode value)).
    rewrite parse_pair_entry, IH.
    now destruct (urlencode name).
  - change (Forall (fun p => lacks "&" p = true)
              (map (fun '(name, value) => urlencode name +:+ "=" +:+ urlencode value)
                   (entry :: entries))).
    induction (entry :: entries) as [| [name value] rest IH]; constructor; [| exact IH].
    rewrite !lacks_app. destruct (urlencode_lacks name) as [-> _].
    destruct (urlencode_lacks value) as [-> _]. reflexivity.
Qed.

(** C8, as stated, fails on the order: in [{b: 1, 1: 2}] the key [b] was
    written first, and the query string starts with the key [1]. *)
Lemma buildQueryParams_index_first :
  buildQueryParams (JObj [("b", JNum 1); ("1", JNum 2)]) = Return "1=2&b=1"
  /\ URLSearchParams_toString (spec_query_entries [("b", JNum 1); ("1", JNum 2)]) = "b=1&1=2"
  /\ buildQueryParams (JObj [("b", JNum 1); ("1", JNum 2)])
     <> Return (URLSearchParams_toString (spec_query_entries [("b", JNum 1); ("1", JNum 2)])).
Proof. split; [| split]; [reflexivity | reflexivity | intros H; discriminate H]. Qed.

(** C8, amended: the query string of a record is the URL-encoding of
    exactly the keys whose value is not null, not undefined and not the
    empty string, with the value as a string, in the order [Object.keys]
    lists them: the keys that are array indices first, by ascending index,
    then the other keys in insertion order.  For a record without array
    indices among its keys that is insertion order; so the record with
    a = 1, b = the empty string, c = null and d = x gives [a=1&d=x].
    Parsing the query string gives these keys and values back. *)
Theorem buildQueryParams_record (fields : list (string * JsVal)) :
  let keys := own_keys (map fst fields) in
  buildQueryParams (JObj fields)
  = Return (URLSearchParams_toString (query_entries (JObj fields) keys))
  /\ parse_query (URLSearchParams_toString (query_entries (JObj fields) keys))
     = Some (query_entries (JObj fields) keys)
  /\ map fst (query_entries (JObj fields) keys)
     = List.filter (fun key => is_set (assoc key fields)) keys
  /\ keys = (map snd (index_keys (map fst fields))
             ++ List.filter (fun k => negb (is_index k)) (map fst fields))%list
  /\ Sorted (fun a b => fst a <= fst b) (index_keys (map fst fields))
  /\ Permutation keys (map fst fields)
  /\ (List.NoDup (map fst fields) ->
      forallb (fun k => negb (is_index k)) (map fst fields) = true ->
      buildQueryParams (JObj fields)
      = Return (URLSearchParams_toString (spec_query_entries fields)))
  /\ buildQueryParams
       (JObj [("a", JNum 1); ("b", JStr EmptyString); ("c", JNull); ("d", JStr "x")])
     = Return "a=1&d=x".
Proof.
  intros keys. subst keys.
  assert (Hbuild : buildQueryParams (JObj fields)
                   = Return (URLSearchParams_toString
                               (query_entries (JObj fields) (own_keys (map fst fields))))).
  { now apply buildQueryParams_keys. }
  split; [exact Hbuild |]. split; [apply parse_query_toString |]. split.
  { unfold query_entries. rewrite map_map. cbn [fst prop]. apply map_id. }
  split; [reflexivity |]. split; [apply index_keys_sorted |].
  split; [apply own_keys_perm |]. split; [| reflexivity].
  intros Hnodup Hno. rewrite Hbuild, (own_keys_no_index _ Hno).
  now rewrite (query_entries_record fields fields Hnodup).
Qed.

Lemma buildQueryParams_record_witness :
  buildQueryParams (JObj [("page", JNum 2); ("q", JStr "red shoes"); ("sort", JUndefined);
                          ("size", JStr EmptyString); ("sale", JBool false)])
  = Return (URLSearchParams_toString [("page", "2"); ("q", "red shoes"); ("sale", "false")]).
Proof.
  apply (proj1 (proj2 (proj2 (proj2 (proj2 (proj2 (proj2
           (buildQueryParams_record
              [("page", JNum 2); ("q", JStr "red shoes"); ("sort", JUndefined);
               ("size", JStr EmptyString); ("sale", JBool false)])))))))).
  - repeat (constructor; [cbn; intuition discriminate |]). constructor.
  - reflexivity.
Defined.

(** * Further properties *)

(** ** The envelopes *)

Lemma or_else_default_truthy (a b : JsVal) : truthy b = true -> truthy (a ||' b) = true.
Proof. intros Hb. unfold or_else. now destruct (truthy a) eqn:Ha. Qed.

(** X1: whatever the response holds, the envelope of [handleApiResponse]
    has a truthy message; when it reports success its data is the
    response's [data], which is truthy, and when it reports failure its
    data is null and the response's [data] is falsy. *)
Theorem handleApiResponse_invariant (response : JsVal) :
  nullish response = false ->
  exists success data message,
    handleApiResponse response
    = Return (JObj [("success", JBool success); ("data", data); ("message", message)])
    /\ truthy message = true
    /\ (success = true -> data = prop response "data" /\ truthy data = true)
    /\ (success = false -> data = JNull /\ truthy (prop response "data") = false).
Proof.
  intros Hn. unfold handleApiResponse. rewrite (GetV_defined _ _ Hn).
  destruct (truthy (prop response "data")) eqn:Hdata.
  - eexists true, _, _. split; [reflexivity |]. split; [| split].
    + now apply or_else_default_truthy.
    + now intros _.
    + discriminate.
  - eexists false, _, _. split; [reflexivity |]. split; [reflexivity |]. split.
    + discriminate.
    + now intros _.
Qed.

Lemma handleApiResponse_invariant_witness :
  exists success data message,
    handleApiResponse (JObj [("data", JObj [("message", JStr EmptyString)])])
    = Return (JObj [("success", JBool success); ("data", data); ("message", message)])
    /\ truthy message = true
    /\ (success = true ->
        data = prop (JObj [("data", JObj [("message", JStr EmptyString)])]) "data"
        /\ truthy data = true)
    /\ (success = false ->
        data = JNull
        /\ truthy (prop (JObj [("data", JObj [("message", JStr EmptyString)])]) "data") = false).
Proof.
  apply (handleApiResponse_invariant (JObj [("data", JObj [("message", JStr EmptyString)])])).
  reflexivity.
Defined.

(** X2: for every error that is not null or undefined, [handleApiError]
    returns a failure envelope (success false, data null) whose message is
    truthy; its status is [error.response.status] when [error.response] is
    truthy and null otherwise. *)
Theorem handleApiError_invariant (error : JsVal) :
  nullish error = false ->
  exists message status,
    handleApiError error = Return (error_envelope message status)
    /\ truthy message = true
    /\ (truthy (prop error "response") = true ->
        status = prop (prop error "response") "status")
    /\ (truthy (prop error "response") = false -> status = JNull).
Proof.
  intros Hn. unfold handleApiError. rewrite (GetV_defined _ _ Hn).
  destruct (truthy (prop error "response")) eqn:Hresponse.
  - eexists _, _. split; [reflexivity |]. split; [| split].
    + now apply or_else_default_truthy.
    + now intros _.
    + discriminate.
  - destruct (truthy (prop error "request")).
    + eexists _, _. split; [reflexivity |]. split; [reflexivity |]. now split.
    + eexists _, _. split; [reflexivity |]. split; [| now split].
      now apply or_else_default_truthy.
Qed.

Lemma handleApiError_invariant_witness :
  exists message status,
    handleApiError (JObj [("response", JObj [("data", JObj [("message", JNum 0)])])])
    = Return (error_envelope message status)
    /\ truthy message = true
    /\ (truthy (prop (JObj [("response", JObj [("data", JObj [("message", JNum 0)])])])
                     "response") = true ->
        status = prop (prop (JObj [("response", JObj [("data", JObj [("message", JNum 0)])])])
                            "response") "status")
    /\ (truthy (prop (JObj [("response", JObj [("data", JObj [("message", JNum 0)])])])
                     "response") = false -> status = JNull).
Proof.
  apply (handleApiError_invariant
           (JObj [("response", JObj [("data", JObj [("message", JNum 0)])])])).
  reflexivity.
Defined.

(** ** An upload through apiCall *)

Section UploadThroughApiCall.
Context {World : Type} {imageAPI : ImageAPI World}.

End UploadThroughApiCall.


(** ** retryRequest, for every operation *)

Section RetryOutcome.
Context {World : Type}.
Variable elapse : Z -> World -> World.
Variable apiFunction : Operation World.
Variables maxRetries delay : Z.
Implicit Types (st : State World) (i : Z) (k turns : nat).

#[local] Abbreviation loop := (retry_loop elapse apiFunction maxRetries delay).
#[local] Abbreviation failures := (fails_then elapse apiFunction delay).

(** Failed attempts that are not the last allowed one are slept over. *)
Lemma retry_loop_after_failures i k w w' :
  failures i k w w' ->
  forall turns (events : list Event),
    i + Z.of_nat k < maxRetries ->
    loop (k + turns) i (mkState w events)
    = loop turns (i + Z.of_nat k) (mkState w' (events ++ backoff delay i k)).
Proof.
  induction 1 as [i w | i k w w1 w' error Hop _ IH]; intros turns events Hlast.
  - cbn [backoff Nat.add]. now rewrite app_nil_r, Z.add_0_r.
  - cbn [Nat.add].
    rewrite (retry_loop_retry elapse apiFunction maxRetries delay _ i
               (mkState w events) error w1) by (cbn [world]; first [exact Hop | lia]).
    cbn [trace]. rewrite IH by lia. cbn [backoff].
    replace (i + Z.of_nat (S k)) with (i + 1 + Z.of_nat k) by lia.
    now rewrite <- app_assoc.
Qed.

(** What the loop comes to when it has turns enough: either there is no
    attempt to make, or after [k] failed attempts that were slept over the
    outcome of the next attempt is the outcome of the loop, and a failure
    is only let through from attempt [maxRetries - 1]. *)
Lemma retry_loop_outcome turns :
  forall i st,
    maxRetries - i <= Z.of_nat turns ->
    (maxRetries <= i /\ loop turns i st = (Return JUndefined, st))
    \/ exists k w_last outcome w',
         i + Z.of_nat k < maxRetries
         /\ failures i k (world st) w_last
         /\ apiFunction w_last = (outcome, w')
         /\ loop turns i st
            = (outcome, mkState w' (trace st ++ backoff delay i k ++ [Invoked]))
         /\ (forall error, outcome = Throw error -> i + Z.of_nat k = maxRetries - 1).
Proof.
  induction turns as [| turns IH]; intros i st Hturns.
  - left. split; [lia | reflexivity].
  - destruct (Z.ltb_spec i maxRetries) as [Hlt | Hge].
    + right. destruct (apiFunction (world st)) as [[result | error] w1] eqn:Hop.
      * exists O, (world st), (Return result), w1.
        split; [lia |]. split; [constructor |]. split; [exact Hop |]. split.
        -- now apply retry_loop_success.
        -- discriminate.
      * destruct (Z.eq_dec i (maxRetries - 1)) as [Hi | Hi].
        -- exists O, (world st), (Throw error), w1.
           split; [lia |]. split; [constructor |]. split; [exact Hop |]. split.
           ++ now apply retry_loop_last_failure.
           ++ intros _ _. lia.
        -- rewrite (retry_loop_retry elapse apiFunction maxRetries delay turns i st error w1
                      Hlt Hop Hi).
           destruct (IH (i + 1)
                        (mkState (elapse (delay * 2 ^ i) w1)
                                 (trace st ++ [Invoked; Slept (delay * 2 ^ i)])))
             as [[Hover _] | (k & w_last & outcome & w' & Hk & Hfail & Hlast & Hrun & Hthrow)];
             [lia | lia |].
           exists (S k), w_last, outcome, w'.
           split; [lia |]. split; [econstructor; [exact Hop | exact Hfail] |].
           split; [exact Hlast |]. split.
           ++ rewrite Hrun. cbn [trace backoff]. now rewrite <- app_assoc.
           ++ intros error' Hout. specialize (Hthrow error' Hout). lia.
    + left. split; [lia |]. cbn [retry_loop].
      now replace (i <? maxRetries) with false by (symmetry; apply Z.ltb_ge; lia).
Qed.

Lemma total_sleep_backoff i k :
  0 <= i -> total_sleep (backoff delay i k) = delay * 2 ^ i * (2 ^ Z.of_nat k - 1).
Proof.
  unfold total_sleep. revert i. induction k as [| k IH]; intros i Hi.
  - cbn. lia.
  - cbn [backoff sleeps fold_right]. rewrite IH by lia.
    replace (i + 1) with (Z.succ i) by lia.
    rewrite Nat2Z.inj_succ, !Z.pow_succ_r by lia. ring.
Qed.

Lemma total_sleep_app (a b : list Event) :
  total_sleep (a ++ b) = total_sleep a + total_sleep b.
Proof.
  unfold total_sleep. rewrite sleeps_app, fold_right_app.
  induction (sleeps a) as [| ms l IH]; cbn [fold_right]; lia.
Qed.

(** X4: when the first [k] attempts fail, attempt [k + 1] succeeds and
    [k < maxRetries], [retryRequest] returns that result after exactly
    [k + 1] invocations, having slept [delay * 2 ^ j] after each failed
    attempt [j], which is [delay * (2 ^ k - 1)] milliseconds in all. *)
Theorem retryRequest_recovers st k w_last result w' :
  failures 0 k (world st) w_last ->
  apiFunction w_last = (Return result, w') ->
  Z.of_nat k < maxRetries ->
  retryRequest elapse apiFunction maxRetries delay st
  = (Return result, mkState w' (trace st ++ backoff delay 0 k ++ [Invoked]))
  /\ invocations (backoff delay 0 k ++ [Invoked]) = S k
  /\ sleeps (backoff delay 0 k ++ [Invoked])
     = map (fun j => delay * 2 ^ Z.of_nat j) (seq 0 k)
  /\ total_sleep (backoff delay 0 k ++ [Invoked]) = delay * (2 ^ Z.of_nat k - 1).
Proof.
  intros Hfail Hop Hk. split; [| split; [| split]].
  - unfold retryRequest.
    replace (Z.to_nat maxRetries) with (k + S (Z.to_nat maxRetries - S k))%nat by lia.
    destruct st as [w events]. cbn [world trace] in *.
    rewrite (retry_loop_after_failures _ _ _ _ Hfail) by lia.
    rewrite (retry_loop_success elapse apiFunction maxRetries delay _ _ _ result w')
      by (cbn [world]; first [exact Hop | lia]).
    cbn [trace]. now rewrite <- app_assoc.
  - rewrite invocations_app, invocations_backoff. cbn. lia.
  - rewrite sleeps_app, sleeps_backoff. cbn [sleeps]. now rewrite app_nil_r.
  - rewrite total_sleep_app, total_sleep_backoff by lia. cbn. lia.
Qed.

(** X5: for every operation, either [maxRetries <= 0] and [retryRequest]
    returns undefined without touching anything, or the operation failed
    on [k < maxRetries] attempts that were each slept over, and the outcome
    of the next attempt, result or failure, is the outcome of
    [retryRequest]; a failure comes through only from attempt
    [maxRetries - 1]. *)
Theorem retryRequest_outcome st :
  (maxRetries <= 0
   /\ retryRequest elapse apiFunction maxRetries delay st = (Return JUndefined, st))
  \/ exists k w_last outcome w',
       Z.of_nat k < maxRetries
       /\ failures 0 k (world st) w_last
       /\ apiFunction w_last = (outcome, w')
       /\ retryRequest elapse apiFunction maxRetries delay st
          = (outcome, mkState w' (trace st ++ backoff delay 0 k ++ [Invoked]))
       /\ (forall error, outcome = Throw error -> Z.of_nat k = maxRetries - 1).
Proof.
  unfold retryRequest.
  destruct (retry_loop_outcome (Z.to_nat maxRetries) 0 st) as [[Hmax Hrun] | Hrun];
    [lia | idtac | idtac].
  - left. now split.
  - right. destruct Hrun as (k & w_last & outcome & w' & Hk & Hfail & Hop & Hrun & Hthrow).
    exists k, w_last, outcome, w'.
    split; [lia |]. split; [exact Hfail |]. split; [exact Hop |]. split; [exact Hrun |].
    intros error Hout. specialize (Hthrow error Hout). lia.
Qed.

End RetryOutcome.

Lemma retryRequest_recovers_witness :
  retryRequest no_clock flaky_server 5 250 (mkState O [])
  = (Return (JObj [("data", JStr "ok")]),
     mkState 3%nat [Invoked; Slept 250; Invoked; Slept 500; Invoked])
  /\ invocations [Invoked; Slept 250; Invoked; Slept 500; Invoked] = 3%nat
  /\ sleeps [Invoked; Slept 250; Invoked; Slept 500; Invoked] = [250; 500]
  /\ total_sleep [Invoked; Slept 250; Invoked; Slept 500; Invoked] = 750.
Proof.
  refine (retryRequest_recovers no_clock flaky_server 5 250 (mkState O []) 2 2%nat
            (JObj [("data", JStr "ok")]) 3%nat _ eq_refl _); [| lia].
  apply (fails_more _ _ _ _ _ _ 1%nat _ (JError "Error" "timeout")); [reflexivity |].
  apply (fails_more _ _ _ _ _ _ 2%nat _ (JError "Error" "timeout")); [reflexivity |].
  apply fails_none.
Defined.


(** ** The session, read back *)

Section SessionReadBack.
Context `{Host}.

(** X7: for a token that decodes to a payload, [isTokenExpired] is true
    exactly when [exp] is a number with [exp * 1000 < now]: a payload
    without [exp], or with one that is not a number, never expires, and at
    the instant [exp * 1000 = now] the token still counts as valid. *)
Theorem isTokenExpired_decoded (now : Z) (token payload : JsVal) :
  truthy token = true ->
  tokenUtils.decode_payload token = Return payload ->
  nullish payload = false ->
  (tokenUtils.isTokenExpired now token = true
   <-> exists exp, ToNumber (prop payload "exp") = Some exp /\ exp * 1000 < now)
  /\ (prop payload "exp" = JUndefined -> tokenUtils.isTokenExpired now token = false)
  /\ (forall exp, ToNumber (prop payload "exp") = Some exp -> exp * 1000 = now ->
      tokenUtils.isTokenExpired now token = false).
Proof.
  intros Htoken Hdecode Hpayload. unfold tokenUtils.isTokenExpired.
  rewrite Htoken, Hdecode, (GetV_defined _ _ Hpayload). cbn [negb].
  split; [| split].
  - destruct (ToNumber (prop payload "exp")) as [exp |]; cbn [num_mul num_lt].
    + rewrite Z.ltb_lt. split.
      * intros Hlt. now exists exp.
      * intros (exp' & [= <-] & Hlt). exact Hlt.
    + split; [discriminate | now intros (exp & Hexp & _)].
  - now intros ->.
  - intros exp -> <-. cbn [num_mul num_lt]. apply Z.ltb_irrefl.
Qed.

(** X8: expiry is final: a token that [isTokenExpired] reports as expired
    at one time is reported as expired at every later time. *)
Theorem isTokenExpired_monotone (now now' : Z) (token : JsVal) :
  now <= now' ->
  tokenUtils.isTokenExpired now token = true ->
  tokenUtils.isTokenExpired now' token = true.
Proof.
  intros Hlater. unfold tokenUtils.isTokenExpired.
  destruct (negb (truthy token)); [easy |].
  destruct (tokenUtils.decode_payload token) as [payload | error]; [| easy].
  destruct (GetV payload "exp") as [exp | error]; [| easy].
  destruct (ToNumber exp) as [n |]; cbn [num_mul num_lt]; [| easy].
  rewrite !Z.ltb_lt. lia.
Qed.

(** X10: after [clearAllUserData] the session reads as signed out,
    whatever was stored: [getToken] gives null, [getUserData] returns
    null without calling [JSON.parse], the token read back counts as
    expired, and clearing again changes nothing. *)
Theorem clearAllUserData_signed_out (now : Z) (localStorage : Storage) :
  tokenUtils.getToken (userUtils.clearAllUserData localStorage) = JNull
  /\ userUtils.getUserData (userUtils.clearAllUserData localStorage) = Return JNull
  /\ tokenUtils.isTokenExpired now
       (tokenUtils.getToken (userUtils.clearAllUserData localStorage)) = true
  /\ userUtils.clearAllUserData (userUtils.clearAllUserData localStorage)
     = userUtils.clearAllUserData localStorage.
Proof.
  assert (Htoken : userUtils.clearAllUserData localStorage !! "authToken" = None).
  { unfold userUtils.clearAllUserData, userUtils.removeUserData, tokenUtils.removeToken,
      removeItem.
    rewrite !lookup_delete_ne by discriminate. apply lookup_delete_eq. }
  assert (Huser : userUtils.clearAllUserData localStorage !! "userData" = None).
  { unfold userUtils.clearAllUserData, userUtils.removeUserData, tokenUtils.removeToken,
      removeItem.
    rewrite !lookup_delete_ne by discriminate. apply lookup_delete_eq. }
  unfold tokenUtils.getToken, userUtils.getUserData, getItem.
  rewrite Htoken, Huser. split; [reflexivity |]. split; [reflexivity |].
  split; [reflexivity |].
  unfold userUtils.clearAllUserData, userUtils.removeUserData, tokenUtils.removeToken,
    removeItem.
  apply map_eq. intros key. rewrite !lookup_delete.
  repeat case_decide; reflexivity.
Qed.

Context `{Serializer}.

(** X11: what [getUserData] reads after [setUserData(userData)] is
    [JSON.parse] of the text [JSON.stringify] gave, whatever was stored
    before; when [JSON.stringify] gives undefined, the text stored is
    [undefined], and that is what [JSON.parse] gets.  The token is not
    touched, and [removeUserData] takes the data away again. *)
Theorem getUserData_setUserData (userData : JsVal) (localStorage : Storage) :
  (forall text, JSON_stringify userData = Some text -> text <> EmptyString ->
     userUtils.getUserData (userUtils.setUserData userData localStorage) = JSON_parse text)
  /\ (JSON_stringify userData = None ->
      userUtils.getUserData (userUtils.setUserData userData localStorage)
      = JSON_parse "undefined")
  /\ tokenUtils.getToken (userUtils.setUserData userData localStorage)
     = tokenUtils.getToken localStorage
  /\ userUtils.getUserData
       (userUtils.removeUserData (userUtils.setUserData userData localStorage))
     = Return JNull.
Proof.
  unfold userUtils.getUserData, userUtils.setUserData, userUtils.removeUserData,
    tokenUtils.getToken, setItem, removeItem, getItem, stringified.
  split; [| split; [| split]].
  - intros text -> Htext. rewrite lookup_insert_eq. cbn [truthy ToString].
    apply String.eqb_neq in Htext. now rewrite Htext.
  - intros ->. now rewrite lookup_insert_eq.
  - now rewrite lookup_insert_ne by discriminate.
  - now rewrite lookup_delete_eq.
Qed.
End SessionReadBack.

(** X9: [getToken] after [setToken(token)] is the string [token] converts
    to, so that storing null or undefined leaves a truthy string, not an
    absent token; [removeToken] makes [getToken] null; neither touches
    another key. *)
Theorem getToken_setToken (token : JsVal) (localStorage : Storage) :
  tokenUtils.getToken (tokenUtils.setToken token localStorage) = JStr (ToString token)
  /\ (nullish token = true ->
      truthy (tokenUtils.getToken (tokenUtils.setToken token localStorage)) = true)
  /\ tokenUtils.getToken (tokenUtils.removeToken (tokenUtils.setToken token localStorage))
     = JNull
  /\ (forall key, key <> "authToken" ->
      tokenUtils.setToken token localStorage !! key = localStorage !! key
      /\ tokenUtils.removeToken localStorage !! key = localStorage !! key).
Proof.
  unfold tokenUtils.getToken, tokenUtils.setToken, tokenUtils.removeToken,
    getItem, setItem, removeItem.
  split; [| split; [| split]].
  - now rewrite lookup_insert_eq.
  - intros Hn. rewrite lookup_insert_eq. now destruct token.
  - now rewrite lookup_delete_eq.
  - intros key Hkey. split.
    + now rewrite lookup_insert_ne by congruence.
    + now rewrite lookup_delete_ne by congruence.
Qed.

Lemma isTokenExpired_decoded_witness :
  (@tokenUtils.isTokenExpired ReferenceHost.host 1700000000000 (JStr "h.e30.s") = true
   <-> exists exp,
         @ToNumber ReferenceHost.host (prop (JObj []) "exp") = Some exp
         /\ exp * 1000 < 1700000000000)
  /\ (prop (JObj []) "exp" = JUndefined ->
      @tokenUtils.isTokenExpired ReferenceHost.host 1700000000000 (JStr "h.e30.s") = false)
  /\ (forall exp, @ToNumber ReferenceHost.host (prop (JObj []) "exp") = Some exp ->
      exp * 1000 = 1700000000000 ->
      @tokenUtils.isTokenExpired ReferenceHost.host 1700000000000 (JStr "h.e30.s") = false).
Proof.
  apply (@isTokenExpired_decoded ReferenceHost.host 1700000000000 (JStr "h.e30.s") (JObj []));
    reflexivity.
Defined.

Lemma isTokenExpired_monotone_witness :
  @tokenUtils.isTokenExpired ReferenceHost.host 1700000000000
     (JStr "h.eyJleHAiOjE2MDAwMDAwMDB9.s") = true.
Proof.
  apply (@isTokenExpired_monotone ReferenceHost.host 1600000000001 1700000000000
           (JStr "h.eyJleHAiOjE2MDAwMDAwMDB9.s")); [lia | reflexivity].
Defined.

Lemma getUserData_setUserData_witness :
  @userUtils.getUserData ReferenceHost.host
     (@userUtils.setUserData ReferenceSerializer.serializer
        (JObj [("name", JStr "Ada"); ("roles", JArr [JStr "admin"; JNum 7]); ("active", JBool true)])
        {[ "userData" := "stale" ]})
  = Return (JObj [("name", JStr "Ada"); ("roles", JArr [JStr "admin"; JNum 7]);
                  ("active", JBool true)])
  /\ @userUtils.getUserData ReferenceHost.host
       (@userUtils.setUserData ReferenceSerializer.serializer JUndefined ∅)
     = Throw ReferenceHost.syntax_error.
Proof.
  split.
  - refine (proj1 (@getUserData_setUserData ReferenceHost.host ReferenceSerializer.serializer
                     (JObj [("name", JStr "Ada"); ("roles", JArr [JStr "admin"; JNum 7]);
                            ("active", JBool true)])
                     {[ "userData" := "stale" ]}) _ eq_refl _).
    discriminate.
  - exact (proj1 (proj2 (@getUserData_setUserData ReferenceHost.host
                           ReferenceSerializer.serializer JUndefined ∅)) eq_refl).
Defined.

Lemma getToken_setToken_witness :
  truthy (tokenUtils.getToken (tokenUtils.setToken JNull ∅)) = true
  /\ tokenUtils.setToken (JStr "abc") {[ "userData" := "{}" ]} !! "userData" = Some "{}".
Proof.
  split.
  - apply (getToken_setToken JNull ∅). reflexivity.
  - refine (proj1 (proj2 (proj2 (proj2 (getToken_setToken (JStr "abc")
                                           {[ "userData" := "{}" ]})))
                         "userData" _)).
    discriminate.
Defined.

(** ** Uploads, for every transport *)

Section UploadAlways.
Context {World : Type} {imageAPI : ImageAPI World}.

(** X12: with a file that is null or undefined both upload helpers reject
    with the TypeError of reading [file.name], and the transport is not
    called: the state is the one they started in. *)
Theorem upload_without_file (file : JsVal) (st : State World) :
  nullish file = true ->
  uploadUtils.uploadImage file st = (Throw (TypeError_read file "name"), st)
  /\ uploadUtils.uploadVideo file st = (Throw (TypeError_read file "name"), st).
Proof.
  intros Hn.
  unfold uploadUtils.uploadImage, uploadUtils.uploadVideo, uploadUtils.upload_catch,
    try_catch, bind, lift, throw.
  now rewrite (GetV_nullish _ _ Hn).
Qed.

Lemma upload_catch_outcome (error : JsVal) (st : State World) :
  exists error', uploadUtils.upload_catch error st = (Throw error', st).
Proof.
  unfold uploadUtils.upload_catch, bind, lift, throw.
  destruct (GetV error "response"); eauto.
Qed.

(** X13: whatever the transport does, an upload of a file that is not null
    or undefined calls it exactly once, and when the upload resolves, it
    resolves with [{ data: { imageUrl } }] (or [videoUrl]) around a truthy
    URL, never without one. *)
Theorem upload_once_with_url (file : JsVal) (st : State World) :
  nullish file = false ->
  (snd (uploadUtils.uploadImage file st)
   = invoked st (snd (uploadSingleImage [("image", file)] (world st)))
   /\ forall result,
        fst (uploadUtils.uploadImage file st) = Return result ->
        exists url, truthy url = true
                    /\ result = JObj [("data", JObj [("imageUrl", url)])])
  /\ (snd (uploadUtils.uploadVideo file st)
      = invoked st (snd (uploadSingleVideo [("video", file)] (world st)))
      /\ forall result,
           fst (uploadUtils.uploadVideo file st) = Return result ->
           exists url, truthy url = true
                       /\ result = JObj [("data", JObj [("videoUrl", url)])]).
Proof.
  intros Hn. split.
  - unfold uploadUtils.uploadImage, try_catch, bind, lift, await, ret, throw, invoked.
    rewrite (GetV_defined _ _ Hn).
    destruct (uploadSingleImage [("image", file)] (world st)) as [[response | error] w].
    + cbn [snd].
      destruct (truthy (response ?. "data" ?. "data" ?. "imageUrl"
                        ||' response ?. "data" ?. "imageUrl"
                        ||' response ?. "imageUrl")) eqn:Hurl.
      * split; [reflexivity |]. intros result [= <-]. eauto.
      * split; [reflexivity | discriminate].
    + cbn [snd].
      destruct (upload_catch_outcome error (mkState w (trace st ++ [Invoked])))
        as [error' ->].
      split; [reflexivity | discriminate].
  - unfold uploadUtils.uploadVideo, try_catch, bind, lift, await, ret, throw, invoked.
    rewrite (GetV_defined _ _ Hn).
    destruct (uploadSingleVideo [("video", file)] (world st)) as [[response | error] w].
    + cbn [snd].
      destruct (truthy (response ?. "data" ?. "data" ?. "videoUrl"
                        ||' response ?. "data" ?. "videoUrl"
                        ||' response ?. "videoUrl")) eqn:Hurl.
      * split; [reflexivity |]. intros result [= <-]. eauto.
      * split; [reflexivity | discriminate].
    + cbn [snd].
      destruct (upload_catch_outcome error (mkState w (trace st ++ [Invoked])))
        as [error' ->].
      split; [reflexivity | discriminate].
Qed.

(** X14: a transport that rejects with null or undefined does not have its
    rejection passed on: the [catch] block fails on reading
    [error.response], and the upload rejects with that TypeError. *)
Theorem upload_rejected_with_nothing (file error : JsVal) (st : State World) (w : World) :
  nullish file = false ->
  nullish error = true ->
  (uploadSingleImage [("image", file)] (world st) = (Throw error, w) ->
   uploadUtils.uploadImage file st = (Throw (TypeError_read error "response"), invoked st w))
  /\ (uploadSingleVideo [("video", file)] (world st) = (Throw error, w) ->
      uploadUtils.uploadVideo file st
      = (Throw (TypeError_read error "response"), invoked st w)).
Proof.
  intros Hfile Herror.
  unfold uploadUtils.uploadImage, uploadUtils.uploadVideo, uploadUtils.upload_catch,
    try_catch, bind, lift, await, ret, throw, invoked.
  rewrite (GetV_defined _ _ Hfile).
  split; intros ->; now rewrite (GetV_nullish _ _ Herror).
Qed.
End UploadAlways.

Lemma upload_without_file_witness :
  @uploadUtils.uploadImage unit scripted_api JUndefined (mkState tt [])
  = (Throw (TypeError_read JUndefined "name"), mkState tt [])
  /\ @uploadUtils.uploadVideo unit scripted_api JUndefined (mkState tt [])
     = (Throw (TypeError_read JUndefined "name"), mkState tt []).
Proof.
  apply (@upload_without_file unit scripted_api JUndefined (mkState tt [])). reflexivity.
Defined.

Lemma upload_once_with_url_witness :
  snd (@uploadUtils.uploadImage unit scripted_api
         (replied (JObj [("imageUrl", JStr "/i/5.png")])) (mkState tt []))
  = mkState tt [Invoked].
Proof.
  apply (@upload_once_with_url unit scripted_api
           (replied (JObj [("imageUrl", JStr "/i/5.png")])) (mkState tt [])).
  reflexivity.
Defined.

(** A transport that rejects with nothing at all. *)
Lemma upload_rejected_with_nothing_witness :
  @uploadUtils.uploadImage unit
     {| uploadSingleImage := fun _ w => (Throw JUndefined, w);
        uploadSingleVideo := fun _ w => (Throw JNull, w) |}
     (JObj [("name", JStr "a.png")]) (mkState tt [])
  = (Throw (TypeError_read JUndefined "response"), mkState tt [Invoked]).
Proof.
  apply (@upload_rejected_with_nothing unit
           {| uploadSingleImage := fun _ w => (Throw JUndefined, w);
              uploadSingleVideo := fun _ w => (Throw JNull, w) |}
           (JObj [("name", JStr "a.png")]) JUndefined (mkState tt []) tt);
    reflexivity.
Defined.

(** ** Query strings and form data *)

(** X15: without a record there is little to build.  For null or undefined
    both builders throw the TypeError of [Object.keys]; for a number, a
    boolean or an [Error] the query string is empty, and the form data
    holds at most the file. *)
Theorem builders_without_record {Blob : Type} (params fileField : JsVal)
    (fileData : JsVal + Blob) :
  (nullish params = true ->
   buildQueryParams params
   = Throw (JError "TypeError" "Cannot convert undefined or null to object")
   /\ createFormData params fileField fileData
      = Throw (JError "TypeError" "Cannot convert undefined or null to object"))
  /\ (match params with
      | JNum _ | JNaN | JBool _ | JError _ _ => True
      | _ => False
      end ->
      buildQueryParams params = Return EmptyString
      /\ createFormData params fileField fileData
         = Return (if truthy fileField && truthy_value fileData
                   then FormData_append (ToString fileField) fileData []
                   else [])).
Proof.
  split.
  - intros Hn. destruct params; try discriminate Hn; now split.
  - destruct params; try contradiction; intros _; now split.
Qed.

Lemma builders_without_record_witness :
  buildQueryParams JUndefined
  = Throw (JError "TypeError" "Cannot convert undefined or null to object")
  /\ buildQueryParams (JNum 42) = Return EmptyString
  /\ @createFormData unit (JBool true) (JStr "avatar") (inr tt)
     = Return [("avatar", FormBlob tt)].
Proof.
  split; [| split].
  - apply (proj1 (@builders_without_record unit JUndefined JNull (inl JNull))). reflexivity.
  - apply (proj2 (@builders_without_record unit (JNum 42) JNull (inl JNull))).
    exact I.
  - apply (proj2 (@builders_without_record unit (JBool true) (JStr "avatar") (inr tt))).
    exact I.
Defined.

(** What [URLSearchParams] writes is made of the letters, the digits and
    [* - . _ + % = &]. *)
Lemma encode_byte_query_chars (b : N) :
  (b < 256)%N -> forallb query_char (list_ascii_of_string (encode_byte b)) = true.
Proof. revert b. apply below_256. vm_compute. reflexivity. Qed.

Lemma urlencode_query_chars (s : string) :
  forallb query_char (list_ascii_of_string (urlencode s)) = true.
Proof.
  unfold urlencode. rewrite list_ascii_of_concat.
  assert (Hbytes : Forall (fun b => (b < 256)%N) (flat_map utf8 (list_ascii_of_string s))).
  { induction (list_ascii_of_string s) as [| c chars IH]; [constructor |].
    cbn [flat_map]. apply Forall_app. split; [apply utf8_bounded | exact IH]. }
  induction Hbytes as [| b bytes Hb _ IH]; [reflexivity |].
  cbn [map flat_map]. rewrite forallb_app, IH, (encode_byte_query_chars _ Hb). reflexivity.
Qed.

Lemma toString_query_chars (entries : list (string * string)) :
  forallb query_char (list_ascii_of_string (URLSearchParams_toString entries)) = true.
Proof.
  unfold URLSearchParams_toString.
  induction entries as [| [name value] entries IH]; [reflexivity |].
  assert (Hentry : forallb query_char
                     (list_ascii_of_string (urlencode name +:+ "=" +:+ urlencode value)) = true).
  { rewrite !list_ascii_of_string_app, !forallb_app, !urlencode_query_chars. reflexivity. }
  cbn [map]. destruct entries as [| entry entries]; [exact Hentry |].
  change (String.concat "&" ((urlencode name +:+ "=" +:+ urlencode value)
                             :: map (fun '(name, value) => urlencode name +:+ "=" +:+ urlencode value)
                                    (entry :: entries)))
    with ((urlencode name +:+ "=" +:+ urlencode value)
          +:+ String "&" (String.concat "&"
                 (map (fun '(name, value) => urlencode name +:+ "=" +:+ urlencode value)
                      (entry :: entries)))).
  rewrite list_ascii_of_string_app, forallb_app, Hentry.
  cbn [list_ascii_of_string forallb]. now rewrite IH.
Qed.

(** X16: whatever it is given, a query string that [buildQueryParams]
    returns is written with ASCII letters, digits and [* - . _ + % = &]
    only, so it can be put behind the [?] of a URL as it is. *)
Theorem buildQueryParams_url_safe (params : JsVal) (query : string) :
  buildQueryParams params = Return query ->
  forallb query_char (list_ascii_of_string query) = true.
Proof.
  unfold buildQueryParams. destruct (Object_keys params) as [keys | error]; [| discriminate].
  intros [= <-]. apply toString_query_chars.
Qed.

Lemma buildQueryParams_url_safe_witness :
  forallb query_char (list_ascii_of_string "q=red+shoes%26co&d=50%25") = true.
Proof.
  apply (buildQueryParams_url_safe
           (JObj [("q", JStr "red shoes&co"); ("d", JStr "50%")])).
  reflexivity.
Defined.

(** X17: on records whose keys and values are written with the characters
    U+0000 to U+00FF, which are the strings [JStr] holds, the query string
    tells the entries apart: two such records with the same query string
    have the same keys and values that are set, as strings and in the order
    of [Object.keys].  Strings with a lone surrogate, which
    [URLSearchParams] replaces by U+FFFD before it encodes, are outside
    [JStr], and nothing is said of them. *)
Theorem buildQueryParams_injective (fields fields' : list (string * JsVal)) :
  buildQueryParams (JObj fields) = buildQueryParams (JObj fields') ->
  query_entries (JObj fields) (own_keys (map fst fields))
  = query_entries (JObj fields') (own_keys (map fst fields')).
Proof.
  rewrite (buildQueryParams_keys (JObj fields) _ eq_refl),
    (buildQueryParams_keys (JObj fields') _ eq_refl).
  intros [= Hsame].
  pose proof (parse_query_toString
                (query_entries (JObj fields) (own_keys (map fst fields)))) as Hparse.
  rewrite Hsame, parse_query_toString in Hparse. now injection Hparse.
Qed.

Lemma buildQueryParams_injective_witness :
  query_entries (JObj [("b", JStr "x"); ("1", JNum 2); ("n", JNull)])
                (own_keys (map fst [("b", JStr "x"); ("1", JNum 2); ("n", JNull)]))
  = query_entries (JObj [("1", JStr "2"); ("e", JStr EmptyString); ("b", JStr "x")])
                  (own_keys (map fst [("1", JStr "2"); ("e", JStr EmptyString); ("b", JStr "x")])).
Proof.
  apply (buildQueryParams_injective
           [("b", JStr "x"); ("1", JNum 2); ("n", JNull)]
           [("1", JStr "2"); ("e", JStr EmptyString); ("b", JStr "x")]).
  reflexivity.
Defined.

Section FormDataFacts.
Context {Blob : Type}.

Lemma createFormData_fold (data : JsVal) (keys : list string)
    (formData : list (string * FormValue Blob)) :
  fold_left
    (fun formData key =>
       if negb (nullish (prop data key))
       then FormData_append key (inl (prop data key)) formData
       else formData)
    keys formData
  = (formData
     ++ map (fun key => (key, FormText (ToString (prop data key))))
            (List.filter (fun key => negb (nullish (prop data key))) keys))%list.
Proof.
  revert formData. induction keys as [| key keys IH]; intros formData.
  - cbn. now rewrite app_nil_r.
  - cbn [fold_left List.filter]. rewrite IH.
    destruct (negb (nullish (prop data key))); [| reflexivity].
    unfold FormData_append. cbn [map]. now rewrite <- app_assoc.
Qed.

(** X18: the form data of a record holds, in the order of [Object.keys],
    one text entry for each field that is not null or undefined, the empty
    string, false and 0 included, and after them the file entry, which is
    there only when [fileField] and [fileData] are both truthy: a file
    without a field name, or a field name without a file, is left out
    without notice. *)
Theorem createFormData_record (fields : list (string * JsVal)) (fileField : JsVal)
    (fileData : JsVal + Blob) :
  let keys := List.filter (fun key => negb (nullish (assoc key fields)))
                          (own_keys (map fst fields)) in
  let texts : list (string * FormValue Blob) :=
    map (fun key => (key, FormText (ToString (assoc key fields)))) keys in
  (truthy fileField = true -> truthy_value fileData = true ->
   createFormData (JObj fields) fileField fileData
   = Return (texts ++ [(ToString fileField,
                        match fileData with
                        | inl v => FormText (ToString v)
                        | inr b => FormBlob b
                        end)])%list)
  /\ (truthy fileField = false \/ truthy_value fileData = false ->
      createFormData (JObj fields) fileField fileData = Return texts)
  /\ (forall key value,
        List.NoDup (map fst fields) -> List.In (key, value) fields ->
        (List.In key keys <-> nullish value = false)).
Proof.
  intros keys texts. subst keys texts. unfold createFormData. cbn [Object_keys].
  rewrite createFormData_fold. cbn [app prop]. split; [| split].
  - now intros -> ->.
  - intros [-> | Hdata]; [reflexivity |]. rewrite Hdata. now rewrite andb_false_r.
  - intros key value Hnodup Hin.
    assert (Hvalue : assoc key fields = value).
    { clear - Hnodup Hin. induction fields as [| [k v] fields IH]; [contradiction |].
      cbn [map fst] in Hnodup. apply NoDup_cons_iff in Hnodup as [Hfresh Hnodup].
      cbn [assoc]. destruct Hin as [[= -> ->] | Hin].
      - now rewrite String.eqb_refl.
      - destruct (String.eqb_spec k key) as [-> | Hne]; [| now apply IH].
        exfalso. apply Hfresh. apply (in_map fst) in Hin. exact Hin. }
    rewrite filter_In, Hvalue, negb_true_iff. split; [now intros [_ ?] |].
    intros Hset. split; [| exact Hset].
    apply (Permutation_in _ (Permutation_sym (own_keys_perm (map fst fields)))).
    apply (in_map fst) in Hin. exact Hin.
Qed.

(** X19: [buildQueryParams] and [createFormData] agree on a record but for
    the empty string: the keys of the query string are the names of the
    text entries of the form data, less the keys whose value is the empty
    string. *)
Theorem query_keys_of_form_fields (fields : list (string * JsVal)) :
  exists texts : list (string * FormValue Blob),
    createFormData (JObj fields) JNull (inl JNull) = Return texts
    /\ map fst (query_entries (JObj fields) (own_keys (map fst fields)))
       = List.filter (fun key => negb (is_empty_string (assoc key fields))) (map fst texts).
Proof.
  eexists. split.
  - unfold createFormData. cbn [Object_keys truthy andb]. rewrite createFormData_fold.
    reflexivity.
  - cbn [app prop]. unfold query_entries. rewrite !map_map. cbn [fst prop].
    rewrite !map_id.
    induction (own_keys (map fst fields)) as [| key keys IH]; [reflexivity |].
    cbn [List.filter]. destruct (assoc key fields) as [| | | | | s | | |] eqn:Hvalue;
      cbn [is_set nullish negb List.filter is_empty_string]; rewrite ?Hvalue;
      cbn [is_empty_string negb]; rewrite ?IH; try reflexivity.
Qed.
End FormDataFacts.

Lemma createFormData_record_witness :
  @createFormData unit
     (JObj [("title", JStr "Cap"); ("note", JStr EmptyString); ("price", JNum 0);
            ("tag", JNull)])
     (JStr "image") (inr tt)
  = Return [("title", FormText "Cap"); ("note", FormText EmptyString);
            ("price", FormText "0"); ("image", FormBlob tt)]
  /\ @createFormData unit (JObj [("title", JStr "Cap"); ("tag", JUndefined)])
       (JStr "image") (inl JNull)
     = Return [("title", FormText "Cap")].
Proof.
  split.
  - apply (proj1 (@createFormData_record unit
                    [("title", JStr "Cap"); ("note", JStr EmptyString); ("price", JNum 0);
                     ("tag", JNull)] (JStr "image") (inr tt))); reflexivity.
  - apply (proj1 (proj2 (@createFormData_record unit
                           [("title", JStr "Cap"); ("tag", JUndefined)]
                           (JStr "image") (inl JNull)))).
    right. reflexivity.
Defined.

(** ** Debounce *)

Section Debounce.
Implicit Types (d : Debounced) (t : Timer) (events : list HostEvent).

Lemma host_run_app events (e : HostEvent) d :
  host_run (events ++ [e]) d = host_step (host_run events d) e.
Proof. unfold host_run. now rewrite fold_left_app. Qed.

(** A call of the closure leaves its own timer as the only one. *)
Lemma executedFunction_ok (now : Z) (args : list JsVal) d :
  debounced_ok d ->
  timers (executedFunction now args d)
  = [mkTimer (next_timer d) (now + timer_delay (wait d)) args]
  /\ debounced_ok (executedFunction now args d).
Proof.
  intros [Hpending Hids].
  assert (Hclear : clearTimeout (timeout d) (timers d) = []).
  { destruct Hpending as [-> | (t & -> & ->)].
    - now destruct (timeout d).
    - cbn. now rewrite Nat.eqb_refl. }
  unfold executedFunction. cbn [timers]. rewrite Hclear. split; [reflexivity |].
  split; cbn [timers timeout next_timer app].
  - right. eexists. split; reflexivity.
  - repeat constructor; cbn; lia.
Qed.

(** The timers run: the pending timer, if it is due, calls [func] with its
    arguments and is gone; otherwise nothing happens. *)
Lemma run_timers_ok (now : Z) d :
  debounced_ok d ->
  (timers d = [] /\ run_timers now d = d)
  \/ (exists t, timers d = [t] /\ now < timer_due t /\ run_timers now d = d)
  \/ (exists t, timers d = [t] /\ timer_due t <= now
                /\ run_timers now d
                   = mkDebounced (wait d) (timeout d) [] (next_timer d)
                                 (calls d ++ [timer_args t])).
Proof.
  intros [[Hnone | (t & Hone & Htimeout)] _].
  - left. split; [exact Hnone |]. unfold run_timers. now rewrite Hnone.
  - right. unfold run_timers. rewrite Hone. cbn [List.length run_due]. rewrite Hone.
    cbn [next_due]. destruct (Z.leb_spec (timer_due t) now) as [Hdue | Hnot].
    + right. exists t. split; [reflexivity |]. split; [exact Hdue |].
      unfold later. cbn [timers timeout wait next_timer calls clearTimeout List.filter].
      rewrite Nat.eqb_refl. cbn [negb]. now destruct (timeout d).
    + left. exists t. split; [reflexivity |]. split; [exact Hnot |]. now destruct d.
Qed.

Lemma run_timers_keeps_ok (now : Z) d : debounced_ok d -> debounced_ok (run_timers now d).
Proof.
  intros Hok.
  destruct (run_timers_ok now d Hok)
    as [[_ ->] | [(t & _ & _ & ->) | (t & _ & _ & ->)]]; try exact Hok.
  split; cbn [timers]; [now left | constructor].
Qed.

Lemma debounce_ok (wait : Z) : debounced_ok (debounce wait).
Proof. split; [now left | constructor]. Qed.

Lemma host_run_ok events d : debounced_ok d -> debounced_ok (host_run events d).
Proof.
  revert d. induction events as [| [now args | now] events IH]; intros d Hok; [exact Hok | |].
  - apply IH. now apply executedFunction_ok.
  - apply IH. now apply run_timers_keeps_ok.
Qed.

(** During a burst nothing is called, and the one timer pending is that of
    the last call. *)
Lemma burst_pending (waitMs t : Z) (args : list JsVal) events :
  Burst (timer_delay waitMs) t args events ->
  let d := host_run events (debounce waitMs) in
  calls d = [] /\ wait d = waitMs /\ debounced_ok d
  /\ exists id, timers d = [mkTimer id (t + timer_delay waitMs) args].
Proof.
  induction 1 as [t args | t args events now _ IH Hnow | t args events t' args' _ IH].
  - cbn. split; [reflexivity |]. split; [reflexivity |].
    split; [apply (executedFunction_ok t args (debounce waitMs)), debounce_ok | eauto].
  - cbn zeta in *. rewrite host_run_app. cbn [host_step].
    destruct IH as (Hcalls & Hwait & Hok & id & Htimers).
    destruct (run_timers_ok now _ Hok)
      as [[Hnone _] | [(timer & _ & _ & ->) | (timer & Hone & Hdue & _)]].
    + rewrite Htimers in Hnone. discriminate Hnone.
    + eauto 6.
    + rewrite Htimers in Hone. injection Hone as <-. cbn [timer_due] in Hdue. lia.
  - cbn zeta in *. rewrite host_run_app. cbn [host_step].
    destruct IH as (Hcalls & Hwait & Hok & _).
    destruct (executedFunction_ok t' args' _ Hok) as [Htimers Hok'].
    split; [exact Hcalls |]. split; [exact Hwait |]. split; [exact Hok' |].
    rewrite Htimers, Hwait. eauto.
Qed.

(** X20: after a burst of calls of the debounced function, [func] has not
    been called as long as the timers run before the delay since the last
    call is over (no call on the leading edge); once they run after it,
    [func] has been called exactly once, with the arguments of the last
    call of the burst, and running the timers again calls nothing more.
    The delay is [wait] itself for every [wait] from 0 up to 2^31 - 1. *)
Theorem debounce_burst (waitMs t : Z) (args : list JsVal) events :
  Burst (timer_delay waitMs) t args events ->
  let d := host_run events (debounce waitMs) in
  calls d = []
  /\ (forall now, now < t + timer_delay waitMs -> calls (run_timers now d) = [])
  /\ (forall now, t + timer_delay waitMs <= now ->
      calls (run_timers now d) = [args]
      /\ forall now', calls (run_timers now' (run_timers now d)) = [args])
  /\ (0 <= waitMs < 2 ^ 31 -> timer_delay waitMs = waitMs).
Proof.
  intros Hburst d.
  destruct (burst_pending waitMs t args events Hburst) as (Hcalls & _ & Hok & id & Htimers).
  fold d in Hcalls, Hok, Htimers.
  split; [exact Hcalls |]. split; [| split].
  - intros now Hnow.
    destruct (run_timers_ok now d Hok)
      as [[_ ->] | [(timer & _ & _ & ->) | (timer & Hone & Hdue & _)]]; try exact Hcalls.
    rewrite Htimers in Hone. injection Hone as <-. cbn [timer_due] in Hdue. lia.
  - intros now Hnow.
    destruct (run_timers_ok now d Hok)
      as [[Hnone _] | [(timer & Hone & Hdue & _) | (timer & Hone & _ & ->)]].
    + rewrite Htimers in Hnone. discriminate Hnone.
    + rewrite Htimers in Hone. injection Hone as <-. cbn [timer_due] in Hdue. lia.
    + rewrite Htimers in Hone. injection Hone as <-. rewrite Hcalls.
      split; [reflexivity |]. intros now'. reflexivity.
  - intros Hwait. unfold timer_delay, ToInt32.
    rewrite Z.mod_small by lia. lia.
Qed.

(** What [func] has been called with, and the arguments of the pending
    timer after them, were arguments of calls of the closure, in that
    order. *)
Lemma host_run_delivers (waitMs : Z) events :
  let d := host_run events (debounce waitMs) in
  debounced_ok d
  /\ (calls d ++ map timer_args (timers d))%list `sublist_of` called_args events.
Proof.
  induction events as [| e events IH] using rev_ind.
  - cbn. split; [apply debounce_ok | constructor].
  - cbn zeta in *. destruct IH as [Hok Hsub].
    rewrite host_run_app. unfold called_args. rewrite flat_map_app.
    fold (called_args events). destruct e as [now args | now]; cbn [host_step flat_map app].
    + destruct (executedFunction_ok now args _ Hok) as [Htimers Hok'].
      assert (Hcalls : calls (host_run events (debounce waitMs))
                       `sublist_of` called_args events).
      { etransitivity; [| exact Hsub]. now apply sublist_inserts_r. }
      split; [exact Hok' |]. rewrite Htimers. cbn [map timer_args calls executedFunction].
      now apply sublist_app.
    + rewrite app_nil_r.
      destruct (run_timers_ok now _ Hok)
        as [[_ ->] | [(timer & _ & _ & ->) | (timer & Hone & _ & ->)]];
        try (split; [exact Hok | exact Hsub]).
      split; [split; [now left | constructor] |]. cbn [calls timers map].
      rewrite app_nil_r. rewrite Hone in Hsub. exact Hsub.
Qed.

(** X21: however the calls of the debounced function and the runs of the
    timers follow each other, at most one timer is pending, and [func] is
    only ever called with arguments the closure was called with, in the
    order of those calls and at most once for each of them. *)
Theorem debounce_delivers (waitMs : Z) events :
  let d := host_run events (debounce waitMs) in
  (List.length (timers d) <= 1)%nat
  /\ calls d `sublist_of` called_args events
  /\ (List.length (calls d) + List.length (timers d) <= List.length (called_args events))%nat.
Proof.
  intros d. destruct (host_run_delivers waitMs events) as [Hok Hsub]. fold d in Hok, Hsub.
  split; [| split].
  - destruct Hok as [[-> | (t & -> & _)] _]; cbn; lia.
  - etransitivity; [| exact Hsub]. now apply sublist_inserts_r.
  - apply sublist_length in Hsub. rewrite List.length_app, List.length_map in Hsub. exact Hsub.
Qed.
End Debounce.

Lemma debounce_burst_witness :
  calls (host_run [Called 0 [JStr "r"]; TimersRun 100; Called 120 [JStr "re"];
                   Called 250 [JStr "red"]; TimersRun 400]
                  (debounce 300)) = []
  /\ calls (run_timers 549
              (host_run [Called 0 [JStr "r"]; TimersRun 100; Called 120 [JStr "re"];
                         Called 250 [JStr "red"]; TimersRun 400]
                        (debounce 300))) = []
  /\ calls (run_timers 550
              (host_run [Called 0 [JStr "r"]; TimersRun 100; Called 120 [JStr "re"];
                         Called 250 [JStr "red"]; TimersRun 400]
                        (debounce 300))) = [[JStr "red"]]
  /\ timer_delay 300 = 300.
Proof.
  assert (Hburst : Burst (timer_delay 300) 250 [JStr "red"]
                     [Called 0 [JStr "r"]; TimersRun 100; Called 120 [JStr "re"];
                      Called 250 [JStr "red"]; TimersRun 400]).
  { apply (burst_idle _ _ _ [Called 0 [JStr "r"]; TimersRun 100; Called 120 [JStr "re"];
                             Called 250 [JStr "red"]] 400); [| reflexivity].
    apply (burst_again _ 120 [JStr "re"]
             [Called 0 [JStr "r"]; TimersRun 100; Called 120 [JStr "re"]]).
    apply (burst_again _ 0 [JStr "r"] [Called 0 [JStr "r"]; TimersRun 100]).
    apply (burst_idle _ _ _ [Called 0 [JStr "r"]] 100); [| reflexivity].
    apply burst_first. }
  pose proof (debounce_burst 300 250 [JStr "red"] _ Hburst) as (Hnone & Hearly & Hlate & Hwait).
  split; [exact Hnone |]. split; [| split].
  - apply Hearly. reflexivity.
  - destruct (Hlate 550) as [Hcall _]; [intros Hgt; discriminate Hgt | exact Hcall].
  - apply Hwait. lia.
Defined.
